(** * mmark: citation-to-bibliography resolution (package mparser)

    A shallow embedding of the bibliography code of mmark's [mparser]
    package: the reference-block lexer ([IsReference], [ReferenceHook],
    [fmtReference]), the anchor extractor ([anchorFromReference]), the
    title index ([authContFromTitle]), the citation collector and assembler
    ([CitationToBibliography]) and the back-matter splicer
    ([NodeBackMatter], [AddBibliography]).

    Go values are modelled as follows.
    - [int] is [Z]; every length in this code is far below 2^63, so no
      wrap-around is involved.
    - [string] is a list of bytes ([bytes]); [[]byte] is a [Slice]: the
      visible elements together with the spare capacity behind them, because
      a Go slice expression [s[:hi]] is checked against [cap(s)], not
      [len(s)].
    - A run-time panic is the [Panic] result of the [result] monad.
    - The document tree is a rose tree whose nodes embed either [ast.Leaf]
      or [ast.Container]; a node pointer is the path from the root.
    - [log.Printf] appends to a list of log entries that is returned. *)

From Stdlib Require Import ZArith Ascii String List Lia Bool ZifyBool.
From Stdlib Require Import DecimalString DecimalZ DecimalPos.
From stdpp Require Import base tactics option list gmap strings sorting.

Local Open Scope Z_scope.

(** ** Bytes, strings and the panic monad *)

Definition bytes := list ascii.

(** [[]byte("...")] and Go string literals. *)
Definition lit (s : string) : bytes := list_ascii_of_string s.

Inductive PanicKind :=
| IndexOutOfRange
| SliceBoundsOutOfRange
| NilDereference
| LeafSetChildren.

Inductive result (A : Type) :=
| Ok (a : A)
| Panic (k : PanicKind).
Arguments Ok {A} a.
Arguments Panic {A} k.

Global Instance result_ret : MRet result := fun _ a => Ok a.
Global Instance result_bind : MBind result := fun _ _ f r =>
  match r with
  | Ok a => f a
  | Panic k => Panic k
  end.

(** ** Go slices of bytes *)

Record Slice := mkSlice {
  elems : bytes;   (* s[0], ..., s[len(s)-1] *)
  spare : bytes    (* the backing array between len(s) and cap(s) *)
}.

Definition ofBytes (b : bytes) : Slice := mkSlice b [].

Definition len (s : Slice) : Z := Z.of_nat (length (elems s)).
Definition cap (s : Slice) : Z :=
  Z.of_nat (length (elems s) + length (spare s)).
Definition lenB (b : bytes) : Z := Z.of_nat (length b).

(** [s[i]]: panics unless [0 <= i < len(s)]. *)
Definition at_ (s : Slice) (i : Z) : result ascii :=
  if (0 <=? i) && (i <? len s) then
    match nth_error (elems s) (Z.to_nat i) with
    | Some c => Ok c
    | None => Panic IndexOutOfRange
    end
  else Panic IndexOutOfRange.

(** [s[lo:hi]]: panics unless [0 <= lo <= hi <= cap(s)]. *)
Definition reslice (s : Slice) (lo hi : Z) : result Slice :=
  if (0 <=? lo) && (lo <=? hi) && (hi <=? cap s) then
    let arr := (elems s ++ spare s)%list in
    Ok (mkSlice (firstn (Z.to_nat (hi - lo)) (skipn (Z.to_nat lo) arr))
                (skipn (Z.to_nat hi) arr))
  else Panic SliceBoundsOutOfRange.

(** [s[lo:]] is [s[lo:len(s)]] and [s[:hi]] is [s[0:hi]]. *)
Definition sliceFrom (s : Slice) (lo : Z) : result Slice := reslice s lo (len s).
Definition sliceTo (s : Slice) (hi : Z) : result Slice := reslice s 0 hi.

(** ** The [bytes] package *)

(** [bytes.HasPrefix]. *)
Fixpoint HasPrefix (s prefix : bytes) : bool :=
  match prefix, s with
  | [], _ => true
  | _ :: _, [] => false
  | p :: prefix', c :: s' => Ascii.eqb c p && HasPrefix s' prefix'
  end.

(** The first index at which [sep] occurs in [s], if any. *)
Fixpoint indexOpt (s sep : bytes) : option nat :=
  if HasPrefix s sep then Some 0%nat
  else match s with
       | [] => None
       | _ :: s' => option_map S (indexOpt s' sep)
       end.

(** [bytes.Index]: the first index of [sep] in [s], or [-1]. *)
Definition Index (s sep : bytes) : Z :=
  match indexOpt s sep with
  | Some i => Z.of_nat i
  | None => -1
  end.

(** ** Reference-block lexer *)

(** [IsReference]: Go's [(nil, false)] is [None], [(span, true)] is
    [Some span]. *)
Definition IsReference (data : Slice) : result (option Slice) :=
  let typ := lit "" in
  let typ := if HasPrefix (elems data) (lit "<reference ")
             then lit "</reference>" else typ in
  let typ := if HasPrefix (elems data) (lit "<referencegroup ")
             then lit "</referencegroup>" else typ in
  if decide (typ = lit "") then Ok None
  else
    rest ← sliceFrom data (lenB typ);
    let end_ := Index (elems rest) typ in
    if (end_ >? len data) || (end_ =? 0) then Ok None
    else
      span ← sliceTo data (end_ + 2 * lenB typ);
      Ok (Some span).

(** ** Anchor extractor *)

(** The loop [for i < len(data) && data[i] != quote { i++ }], run on the
    bytes from index [i] on; the result is the final value of [i]. *)
Fixpoint scanQuote (rest : bytes) (quote : ascii) (i : Z) : Z :=
  match rest with
  | [] => i
  | c :: rest' =>
      if Ascii.eqb c quote then i else scanQuote rest' quote (i + 1)
  end.

(** [anchorFromReference]: Go's [nil] is [None]. *)
Definition anchorFromReference (data : Slice) : result (option Slice) :=
  if negb (HasPrefix (elems data) (lit "<reference "))
     && negb (HasPrefix (elems data) (lit "<referencegroup "))
  then Ok None
  else
    let anchor := Index (elems data) (lit "anchor=") in
    if anchor <? 0 then Ok None
    else
      let beg := anchor + 7 in
      if beg >=? len data then Ok None
      else
        quote ← at_ data beg;
        let i := beg + 1 in
        let i := scanQuote (skipn (Z.to_nat i) (elems data)) quote i in
        if i >=? len data then Ok None
        else
          a ← reslice data (beg + 1) i;
          Ok (Some a).

(** ** Library functions outside the repository

    [encoding/xml] and the Unicode-aware [bytes.ToLower] and
    [strings.EqualFold] are not part of the program; the program is verified
    against any implementation of them.  [reference.Reference] (package
    [mast/reference] of this repository, whose declarations are not among
    the sources at hand) is an opaque record type here. *)
Class GoLib := {
  Reference : Type;
  error : Type;
  (* xml.Unmarshal(data, &x): the error, or the decoded x *)
  xmlUnmarshal : bytes -> error + Reference;
  (* xml.MarshalIndent(x, prefix, indent) *)
  xmlMarshalIndent : Reference -> bytes -> bytes -> error + Slice;
  ToLower : bytes -> bytes;
  EqualFold : bytes -> bytes -> bool
}.

(** ASCII letters only: what [bytes.ToLower] and [strings.EqualFold] do on
    input without bytes above 127. *)
Definition asciiLower (c : ascii) : ascii :=
  let n := nat_of_ascii c in
  if ((65 <=? n) && (n <=? 90))%nat then ascii_of_nat (n + 32) else c.

Definition asciiToLower (b : bytes) : bytes := map asciiLower b.

Fixpoint bytesEqb (s t : bytes) : bool :=
  match s, t with
  | [], [] => true
  | c :: s', d :: t' => Ascii.eqb c d && bytesEqb s' t'
  | _, _ => false
  end.

Definition asciiEqualFold (s t : bytes) : bool :=
  bytesEqb (asciiToLower s) (asciiToLower t).

(** ** [sort.Strings]: ascending byte-wise lexicographic order *)

Fixpoint strLeb (a b : bytes) : bool :=
  match a, b with
  | [], _ => true
  | _ :: _, [] => false
  | x :: a', y :: b' =>
      if (nat_of_ascii x <? nat_of_ascii y)%nat then true
      else if (nat_of_ascii y <? nat_of_ascii x)%nat then false
      else strLeb a' b'
  end.

Definition strLe (a b : bytes) : Prop := strLeb a b = true.

Global Instance strLe_dec a b : Decision (strLe a b).
Proof. unfold strLe. apply _. Defined.

Definition sortStrings (keys : list bytes) : list bytes := merge_sort strLe keys.

(** ** The document tree (packages [ast] and [mast])

    Only the fields this code reads or writes are kept. *)

(** [ast.CitationTypes] and [ast.DocumentMatters] of the markdown library:
    integer types with these named values. *)
Inductive CitationTypes :=
| CitationTypeNone
| CitationTypeSuppressed
| CitationTypeInformative
| CitationTypeNormative.

Inductive DocumentMatters :=
| DocumentMatterNone
| DocumentMatterFront
| DocumentMatterMain
| DocumentMatterBack.

Global Instance CitationTypes_eq_dec : EqDecision CitationTypes.
Proof. solve_decision. Defined.
Global Instance DocumentMatters_eq_dec : EqDecision DocumentMatters.
Proof. solve_decision. Defined.

(** Modelled from the spec: the declarations of [mast.Author],
    [mast.Contact], [mast.TitleData] and [mast.Title] are not among the
    sources.  A title node holds ordered lists of authors and contacts, each
    with a full name; the uses in [mparser] and [render/xml/title.go] give
    the field names, and show that [t.TitleData] is a pointer that may be
    nil. *)
Record Author := { Fullname : bytes }.
Record Contact := { ContactFullname : bytes }.
Record TitleData := { Authors : list Author; Contacts : list Contact }.
Record Title := { TitleData_ : option TitleData }.

Inductive WalkStatus := GoToNext | SkipChildren | Terminate.

(** A node pointer: the child indices from the root down to the node. *)
Definition path := list nat.

Section Core.
Context {L : GoLib}.

(** Modelled from the spec: the declaration of [mast.BibliographyItem] is
    not among the sources.  The resolved record for one reference: the
    anchor, the kind, the decoded record if any, the raw fallback if any;
    the field names are those assigned in [CitationToBibliography]. *)
Record BibliographyItem := mkItem {
  Anchor : Slice;
  Type_ : CitationTypes;
  Reference_ : option Reference;
  ReferenceGroup : option Slice
}.

(** The node types this code tells apart, by what they embed: [ast.Leaf]
    ([ast.Citation], and [mast.ReferenceBlock], [mast.Title],
    [mast.BibliographyItem]) or [ast.Container] ([ast.DocumentMatter], and
    [mast.Bibliography], [mast.BibliographyWrapper]).
    Modelled from the spec: the declarations of the [mast] node types are
    not among the sources; the bibliography groups and the wrapper are
    ordered containers, the others hold no children. *)
Inductive LeafKind :=
| Citation (Destination : list Slice) (Types : list CitationTypes)
| ReferenceBlock (Literal : Slice)
| TitleNode (t : Title)
| BibliographyItemNode (r : BibliographyItem)
| OtherLeaf.

Inductive ContainerKind :=
| DocumentMatter (Matter : DocumentMatters)
| Bibliography (Typ : CitationTypes)
| BibliographyWrapper
| OtherContainer.

#[local] Set Warnings "-register-all".
Inductive Node :=
| Leaf (k : LeafKind)
| Container (k : ContainerKind) (children : list Node).

Inductive LogEntry :=
| LogUnmarshalFailed (anchor : Slice) (e : error)
| LogNoBackmatter.

(** [ast.AppendChild] on a parent that is in no tree yet, and a fresh
    child: [Leaf.SetChildren] panics. *)
Definition AppendChild (parent child : Node) : result Node :=
  match parent with
  | Container k children => Ok (Container k (children ++ [child]))
  | Leaf _ => Panic LeafSetChildren
  end.

Fixpoint nodeAt (p : path) (n : Node) : option Node :=
  match p with
  | [] => Some n
  | i :: p' =>
      match n with
      | Container _ children =>
          match nth_error children i with
          | Some c => nodeAt p' c
          | None => None
          end
      | Leaf _ => None
      end
  end.

(** Replace the node at [p] by [f] of it. *)
Fixpoint updateAt (p : path) (f : Node -> result Node) (n : Node) : result Node :=
  match p with
  | [] => f n
  | i :: p' =>
      match n with
      | Container k children =>
          match nth_error children i with
          | Some c =>
              c' ← updateAt p' f c;
              Ok (Container k (firstn i children ++ c' :: skipn (S i) children))
          | None => Panic NilDereference
          end
      | Leaf _ => Panic NilDereference
      end
  end.

Definition numChildren (n : Node) : nat :=
  match n with
  | Container _ children => length children
  | Leaf _ => 0%nat
  end.

(** [ast.AppendChild(parent, child)] where [parent] points into [doc] and
    [child] is fresh: the tree after the call, and the pointer to the child. *)
Definition AppendChildAt (doc : Node) (parent : path) (child : Node)
  : result (Node * path) :=
  match nodeAt parent doc with
  | None => Panic NilDereference
  | Some old =>
      doc' ← updateAt parent (fun n => AppendChild n child) doc;
      Ok (doc', parent ++ [numChildren old])
  end.

(** ** [ast.WalkFunc]

    [ast.Walk] of the markdown library: the callback is called on entering
    each node and again on leaving each container; a callback that asks to
    terminate on entering a container is still called to leave it. *)

Section Walking.
Context {S : Type}.
Variable visit : path -> Node -> bool -> S -> result (S * WalkStatus).

Definition leave (p : path) (n : Node) (s : S) : result (S * WalkStatus) :=
  '(s, status) ← visit p n false s;
  match status with
  | Terminate => Ok (s, Terminate)
  | _ => Ok (s, GoToNext)
  end.

Fixpoint Walk (p : path) (n : Node) (s : S) : result (S * WalkStatus) :=
  match n with
  | Leaf _ =>
      '(s, status) ← visit p n true s;
      match status with
      | Terminate => Ok (s, Terminate)
      | _ => Ok (s, GoToNext)
      end
  | Container _ children =>
      '(s, status) ← visit p n true s;
      match status with
      | Terminate =>
          (* even if terminating, close container node *)
          '(s, _) ← visit p n false s;
          Ok (s, Terminate)
      | SkipChildren => leave p n s
      | GoToNext =>
          '(s, status) ←
            (fix walkChildren (cs : list Node) (i : nat) (s : S) :=
               match cs with
               | [] => Ok (s, GoToNext)
               | c :: cs' =>
                   '(s, status) ← Walk (p ++ [i]) c s;
                   match status with
                   | Terminate => Ok (s, Terminate)
                   | _ => walkChildren cs' (Datatypes.S i) s
                   end
               end) children 0%nat s;
          match status with
          | Terminate => Ok (s, Terminate)
          | _ => leave p n s
          end
      end
  end.

(** The loop over the children inside [Walk], from child number [i] on. *)
Definition WalkChildren (p : path)
  : list Node -> nat -> S -> result (S * WalkStatus) :=
  fix walkChildren (cs : list Node) (i : nat) (s : S) :=
    match cs with
    | [] => Ok (s, GoToNext)
    | c :: cs' =>
        '(s, status) ← Walk (p ++ [i]) c s;
        match status with
        | Terminate => Ok (s, Terminate)
        | _ => walkChildren cs' (Datatypes.S i) s
        end
    end.

Definition WalkFunc (doc : Node) (s : S) : result S :=
  '(s, _) ← Walk [] doc s;
  Ok s.

End Walking.

(** ** Title index *)

(** [authContFromTitle]: [t] is a pointer, [None] when nil; reading
    [t.TitleData.Author] dereferences the embedded [*TitleData]. *)
Definition authContFromTitle (t : option Title) : result (list bytes) :=
  match t with
  | None => Ok []
  | Some t =>
      match TitleData_ t with
      | None => Panic NilDereference
      | Some d => Ok (map Fullname (Authors d) ++ map ContactFullname (Contacts d))
      end
  end.

(** ** Citation collector and bibliography assembler *)

(** The callback of the first walk of [CitationToBibliography]. *)
Definition visitTitle (_ : path) (node : Node) (_ : bool) (names : list bytes)
  : result (list bytes * WalkStatus) :=
  match node with
  | Leaf (TitleNode t) =>
      names ← authContFromTitle (Some t);
      Ok (names, Terminate)
  | _ => Ok (names, GoToNext)
  end.

(** The loop labelled [Destination], from index [i] on. *)
Fixpoint destinations (names : list bytes) (types : list CitationTypes)
    (ds : list Slice) (i : nat) (seen : gmap bytes BibliographyItem)
  : result (gmap bytes BibliographyItem) :=
  match ds with
  | [] => Ok seen
  | d :: ds' =>
      if existsb (fun name => EqualFold name (elems d)) names
      then destinations names types ds' (S i) seen
      else if bool_decide (is_Some (seen !! ToLower (elems d)))
      then destinations names types ds' (S i) seen
      else
        match nth_error types i with
        | None => Panic IndexOutOfRange
        | Some t =>
            let ref := mkItem d t None None in
            destinations names types ds' (S i) (<[elems d := ref]> seen)
        end
  end.

(** The callback of the second walk. *)
Definition visitCitation (names : list bytes) (_ : path) (node : Node) (_ : bool)
    (st : gmap bytes BibliographyItem * gmap bytes Slice)
  : result (gmap bytes BibliographyItem * gmap bytes Slice * WalkStatus) :=
  let '(seen, raw) := st in
  match node with
  | Leaf (Citation dest types) =>
      seen ← destinations names types dest 0 seen;
      Ok (seen, raw, GoToNext)
  | Leaf (ReferenceBlock literal) =>
      anchor ← anchorFromReference literal;
      match anchor with
      | Some a => Ok (seen, <[ToLower (elems a) := literal]> raw, GoToNext)
      | None => Ok (seen, raw, GoToNext)
      end
  | _ => Ok (seen, raw, GoToNext)
  end.

(** The keys of [seen] in the order in which the map happens to be stored. *)
Definition keysOf (seen : gmap bytes BibliographyItem) : list bytes :=
  (map_to_list seen).*1.

(** The lookup of the raw reference and its decoding, for one item: the item
    as appended, and what is logged. *)
Definition resolve (raw : gmap bytes Slice) (r : BibliographyItem)
  : BibliographyItem * list LogEntry :=
  match raw !! ToLower (elems (Anchor r)) with
  | Some rw =>
      match xmlUnmarshal (elems rw) with
      | inl e =>
          (mkItem (Anchor r) (Type_ r) (Reference_ r) (Some rw),
           [LogUnmarshalFailed (Anchor r) e])
      | inr x => (mkItem (Anchor r) (Type_ r) (Some x) (ReferenceGroup r), [])
      end
  | None => (r, [])
  end.

(** [if group == nil { group = &mast.Bibliography{Type: typ} };
    ast.AppendChild(group, r)]. *)
Definition appendItem (group : option Node) (typ : CitationTypes)
    (r : BibliographyItem) : result (option Node) :=
  let g := match group with
           | None => Container (Bibliography typ) []
           | Some g => g
           end in
  g ← AppendChild g (Leaf (BibliographyItemNode r));
  Ok (Some g).

(** The loop [for _, k := range keys] over the sorted keys. *)
Fixpoint assemble (seen : gmap bytes BibliographyItem) (raw : gmap bytes Slice)
    (keys : list bytes) (normative informative : option Node)
    (lg : list LogEntry)
  : result (option Node * option Node * list LogEntry) :=
  match keys with
  | [] => Ok (normative, informative, lg)
  | k :: keys' =>
      match seen !! k with
      | None => Panic NilDereference
      | Some r =>
          let '(r, out) := resolve raw r in
          let lg := lg ++ out in
          match Type_ r with
          | CitationTypeSuppressed
          | CitationTypeInformative =>
              informative ← appendItem informative CitationTypeInformative r;
              assemble seen raw keys' normative informative lg
          | CitationTypeNormative =>
              normative ← appendItem normative CitationTypeNormative r;
              assemble seen raw keys' normative informative lg
          | CitationTypeNone =>
              assemble seen raw keys' normative informative lg
          end
      end
  end.

(** The two walks of [CitationToBibliography]: the names, and the maps
    [seen] and [raw]. *)
Definition collect (doc : Node)
  : result (gmap bytes BibliographyItem * gmap bytes Slice) :=
  names ← WalkFunc visitTitle doc [];
  WalkFunc (visitCitation names) doc (∅, ∅).

(** [CitationToBibliography], with the log.  [for k := range seen] visits
    the keys in an order Go leaves unspecified and that differs between
    runs; [order] turns the stored key list into the order of one run. *)
Definition CitationToBibliographyIn (order : list bytes -> list bytes)
    (doc : Node) : result (option Node * option Node * list LogEntry) :=
  '(seen, raw) ← collect doc;
  let keys := order (keysOf seen) in
  let keys := sortStrings keys in
  assemble seen raw keys None None [].

Definition CitationToBibliography (doc : Node)
  : result (option Node * option Node * list LogEntry) :=
  CitationToBibliographyIn id doc.

(** ** Back-matter locator and splicer *)

Definition visitBackMatter (p : path) (node : Node) (_ : bool)
    (matter : option path) : result (option path * WalkStatus) :=
  match node with
  | Container (DocumentMatter mat) _ =>
      if decide (mat = DocumentMatterBack) then Ok (Some p, Terminate)
      else Ok (matter, GoToNext)
  | _ => Ok (matter, GoToNext)
  end.

(** [NodeBackMatter]: the pointer to the node, [None] for nil. *)
Definition NodeBackMatter (doc : Node) : result (option path) :=
  WalkFunc visitBackMatter doc None.

Definition fmtReference (data : Slice) : Slice :=
  match xmlUnmarshal (elems data) with
  | inl _ => data
  | inr x =>
      match xmlMarshalIndent x (lit "") (lit "   ") with
      | inl _ => data
      | inr out => out
      end
  end.

(** [ReferenceHook]: the node, the second result (always nil) and the number
    of bytes consumed. *)
Definition ReferenceHook (data : Slice)
  : result (option Node * option Slice * Z) :=
  r ← IsReference data;
  match r with
  | None => Ok (None, None, 0)
  | Some ref =>
      let node := Leaf (ReferenceBlock (fmtReference ref)) in
      Ok (Some node, None, len ref)
  end.

(** [AddBibliography]: the document after the call, the result, and the
    log.  [order] is the map iteration order of the run, as for
    [CitationToBibliographyIn]. *)
Definition AddBibliographyIn (order : list bytes -> list bytes) (doc : Node)
  : result (Node * bool * list LogEntry) :=
  '(norm, inform, lg) ← CitationToBibliographyIn order doc;
  where_ ← NodeBackMatter doc;
  match where_ with
  | None =>
      let lg := if bool_decide (is_Some norm \/ is_Some inform)
                then lg ++ [LogNoBackmatter] else lg in
      Ok (doc, false, lg)
  | Some where_ =>
      '(doc, where_) ←
        match norm, inform with
        | Some _, Some _ =>
            AppendChildAt doc where_ (Container BibliographyWrapper [])
        | _, _ => Ok (doc, where_)
        end;
      doc ← match norm with
            | Some norm => '(doc, _) ← AppendChildAt doc where_ norm; Ok doc
            | None => Ok doc
            end;
      doc ← match inform with
            | Some inform => '(doc, _) ← AppendChildAt doc where_ inform; Ok doc
            | None => Ok doc
            end;
      Ok (doc, bool_decide (is_Some norm \/ is_Some inform), lg)
  end.

Definition AddBibliography (doc : Node) : result (Node * bool * list LogEntry) :=
  AddBibliographyIn id doc.

(** ** Vocabulary of the specification *)

(** A span that starts with one of the two reference openers. *)
Definition hasOpener (b : bytes) : Prop :=
  HasPrefix b (lit "<reference ") = true
  \/ HasPrefix b (lit "<referencegroup ") = true.

(** What a document tree of the data model guarantees at one node: a
    citation has a kind for each destination, and a title node holds its
    title data. *)
Definition wfNode (n : Node) : bool :=
  match n with
  | Leaf (Citation ds ts) => (length ds <=? length ts)%nat
  | Leaf (TitleNode t) => bool_decide (is_Some (TitleData_ t))
  | _ => true
  end.

Fixpoint wfDoc (n : Node) : bool :=
  wfNode n &&
  match n with
  | Container _ children => forallb wfDoc children
  | Leaf _ => true
  end.

(** The nodes in document order (depth first, pre-order). *)
Fixpoint preorder (n : Node) : list Node :=
  n :: match n with
       | Container _ children => flat_map preorder children
       | Leaf _ => []
       end.

Definition asTitle (n : Node) : option Title :=
  match n with
  | Leaf (TitleNode t) => Some t
  | _ => None
  end.

(** The first title node in document order. *)
Definition firstTitle (doc : Node) : option Title :=
  head (omap asTitle (preorder doc)).

Definition isBackMatter (n : Node) : Prop :=
  exists children, n = Container (DocumentMatter DocumentMatterBack) children.

(** The tree with the node at [p] replaced by [new]. *)
Fixpoint replaceAt (p : path) (new : Node) (n : Node) : Node :=
  match p with
  | [] => new
  | i :: p' =>
      match n with
      | Container k children =>
          match nth_error children i with
          | Some c =>
              Container k (firstn i children ++ replaceAt p' new c :: skipn (S i) children)
          | None => n
          end
      | Leaf _ => n
      end
  end.

Definition itemNode (r : BibliographyItem) : Node := Leaf (BibliographyItemNode r).

(** A bibliography group with the given items; no node for no items. *)
Definition bibliography (typ : CitationTypes) (items : list BibliographyItem)
  : option Node :=
  match items with
  | [] => None
  | _ => Some (Container (Bibliography typ) (map itemNode items))
  end.

Definition isNormative (r : BibliographyItem) : Prop :=
  Type_ r = CitationTypeNormative.

Definition isInformative (r : BibliographyItem) : Prop :=
  Type_ r = CitationTypeSuppressed \/ Type_ r = CitationTypeInformative.

Global Instance isNormative_dec r : Decision (isNormative r).
Proof. unfold isNormative. apply _. Defined.
Global Instance isInformative_dec r : Decision (isInformative r).
Proof. unfold isInformative. apply _. Defined.

(** The collected items in ascending order of their keys, each joined with
    its raw reference, and what is logged on the way. *)
Definition sortedItems (seen : gmap bytes BibliographyItem) : list BibliographyItem :=
  omap (fun k => seen !! k) (sortStrings (keysOf seen)).

Definition resolvedItems (seen : gmap bytes BibliographyItem)
    (raw : gmap bytes Slice) : list BibliographyItem :=
  map (fun r => (resolve raw r).1) (sortedItems seen).

Definition resolveLog (seen : gmap bytes BibliographyItem)
    (raw : gmap bytes Slice) : list LogEntry :=
  concat (map (fun r => (resolve raw r).2) (sortedItems seen)).

(** What is attached under the back matter for the two groups. *)
Definition attached (norm inform : option Node) : list Node :=
  match norm, inform with
  | Some n, Some i => [Container BibliographyWrapper [n; i]]
  | Some n, None => [n]
  | None, Some i => [i]
  | None, None => []
  end.

Definition anchorOf (r : BibliographyItem) : bytes := elems (Anchor r).

(** The item stems from a citation of the document: its anchor is a
    destination of a citation node, and its kind the kind at the same
    index. *)
Definition cited (doc : Node) (r : BibliographyItem) : Prop :=
  exists ds ts i,
    Leaf (Citation ds ts) ∈ preorder doc
    /\ nth_error ds i = Some (Anchor r) /\ nth_error ts i = Some (Type_ r).

(** [rw] is the literal of a reference block of the document whose anchor,
    in lower case, is [key]. *)
Definition declared (doc : Node) (key : bytes) (rw : Slice) : Prop :=
  exists a,
    Leaf (ReferenceBlock rw) ∈ preorder doc
    /\ anchorFromReference rw = Ok (Some a) /\ key = ToLower (elems a).

(** What holds of the maps [seen] and [raw] throughout the second walk. *)
Definition seenInv (names : list bytes) (doc : Node)
    (seen : gmap bytes BibliographyItem) : Prop :=
  forall k r, seen !! k = Some r ->
    anchorOf r = k /\ Reference_ r = None /\ ReferenceGroup r = None
    /\ (forall name, name ∈ names -> EqualFold name k = false)
    /\ cited doc r.

Definition rawInv (doc : Node) (raw : gmap bytes Slice) : Prop :=
  forall key rw, raw !! key = Some rw -> declared doc key rw.

End Core.

(** ** An instance and documents for closed examples

    ASCII case mapping, and an XML codec given at the texts of the examples
    only: it decodes [exampleSource], a well-formed reference, to its anchor
    and rejects every other text; re-encoding writes the anchor attribute in
    double quotes, as [encoding/xml] does. *)

Definition dquote : ascii := ascii_of_nat 34.

Definition exampleSource : bytes := lit "<reference anchor='a'></reference>".

Definition exampleLib : GoLib := {|
  Reference := bytes;
  error := unit;
  xmlUnmarshal data :=
    if bytesEqb data exampleSource then inr (lit "a") else inl tt;
  xmlMarshalIndent x _ _ :=
    inr (ofBytes (lit "<reference anchor=" ++ dquote :: x
                  ++ dquote :: lit "></reference>"));
  ToLower := asciiToLower;
  EqualFold := asciiEqualFold
|}.

Section ExampleDocuments.
#[local] Existing Instance exampleLib.

Definition cite (anchor : string) (t : CitationTypes) : Node :=
  Leaf (Citation [ofBytes (lit anchor)] [t]).

Definition backMatter : Node := Container (DocumentMatter DocumentMatterBack) [].

(** [X] normative, then [x] informative. *)
Definition docCase : Node :=
  Container OtherContainer
    [cite "X" CitationTypeNormative; cite "x" CitationTypeInformative; backMatter].

(** [x] normative, then [X] informative. *)
Definition docCaseLower : Node :=
  Container OtherContainer
    [cite "x" CitationTypeNormative; cite "X" CitationTypeInformative; backMatter].

(** [X] normative, then [X] again, informative. *)
Definition docRepeat : Node :=
  Container OtherContainer
    [cite "X" CitationTypeNormative; cite "X" CitationTypeInformative; backMatter].

(** One suppressed citation. *)
Definition docSuppressed : Node :=
  Container OtherContainer [cite "S" CitationTypeSuppressed; backMatter].

Definition badLiteral : Slice :=
  ofBytes (lit "<reference anchor='BadRef'>not-xml</reference>").

(** A title with one author, who is also cited; a normative and an
    informative citation; a raw reference for the second that is not
    well-formed; back matter. *)
Definition docFull : Node :=
  Container OtherContainer
    [Leaf (TitleNode
       {| TitleData_ :=
            Some {| Authors := [{| Fullname := lit "Jane Doe" |}];
                    Contacts := [] |} |});
     Container OtherContainer
       [Leaf (Citation [ofBytes (lit "RFC2119"); ofBytes (lit "jane doe")]
                       [CitationTypeNormative; CitationTypeInformative]);
        Leaf OtherLeaf;
        cite "BadRef" CitationTypeInformative];
     Leaf (ReferenceBlock badLiteral);
     backMatter].

(** The maps [seen] and [raw] collected from [docFull]. *)
Definition seenFull : gmap bytes BibliographyItem :=
  <[lit "BadRef" := mkItem (ofBytes (lit "BadRef")) CitationTypeInformative None None]>
    (<[lit "RFC2119" := mkItem (ofBytes (lit "RFC2119")) CitationTypeNormative None None]> ∅).

Definition rawFull : gmap bytes Slice := <[lit "badref" := badLiteral]> ∅.

End ExampleDocuments.

(** ** Title lookups and number lists of the XML renderer
    ([render/xml/title.go]) *)

Section Renderer.
Context {L : GoLib}.

(** The loop of [AuthorFromTitle]: the first author whose full name
    [strings.EqualFold] identifies with [full]. *)
Fixpoint firstAuthor (full : bytes) (authors : list Author) : option Author :=
  match authors with
  | [] => None
  | a :: rest =>
      if EqualFold (Fullname a) full then Some a else firstAuthor full rest
  end.

(** [AuthorFromTitle]: [t] is a pointer, [None] when nil; the result is a
    pointer to a copy of the author, [None] when nil. *)
Definition AuthorFromTitle (fullname : Slice) (t : option Title)
  : result (option Author) :=
  match t with
  | None => Ok None
  | Some t =>
      let full := elems fullname in
      match TitleData_ t with
      | None => Panic NilDereference
      | Some d => Ok (firstAuthor full (Authors d))
      end
  end.

Fixpoint firstContact (full : bytes) (contacts : list Contact) : option Contact :=
  match contacts with
  | [] => None
  | c :: rest =>
      if EqualFold (ContactFullname c) full then Some c else firstContact full rest
  end.

(** [ContactFromTitle]. *)
Definition ContactFromTitle (fullname : Slice) (t : option Title)
  : result (option Contact) :=
  match t with
  | None => Ok None
  | Some t =>
      let full := elems fullname in
      match TitleData_ t with
      | None => Panic NilDereference
      | Some d => Ok (firstContact full (Contacts d))
      end
  end.

End Renderer.

(** [strconv.Itoa]: the decimal digits, after [-] for a negative number. *)
Definition Itoa (i : Z) : bytes :=
  list_ascii_of_string (DecimalString.NilZero.string_of_int (Z.to_int i)).

(** [strings.Join]. *)
Fixpoint Join (parts : list bytes) (sep : bytes) : bytes :=
  match parts with
  | [] => []
  | x :: rest =>
      match rest with
      | [] => x
      | _ :: _ => x ++ sep ++ Join rest sep
      end
  end.

(** [IntSliceToString]. *)
Definition IntSliceToString (is_ : list Z) : bytes :=
  if (length is_ =? 0)%nat then lit ""
  else Join (map Itoa is_) (lit ", ").

(** The separator byte of [IntSliceToString]. *)
Definition comma : ascii := ","%char.

(** ** Further vocabulary *)

(** Which closing marker [IsReference] looks for: the one of the opener
    the input starts with. *)
Definition closerOf (b : bytes) (typ : bytes) : Prop :=
  (HasPrefix b (lit "<reference ") = true /\ typ = lit "</reference>")
  \/ (HasPrefix b (lit "<referencegroup ") = true /\ typ = lit "</referencegroup>").

(** [p] comes before [q] in document order: [p] is a proper prefix of [q],
    or at the first index where they differ [p] has the smaller one. *)
Fixpoint pathBefore (p q : path) : Prop :=
  match p, q with
  | [], _ :: _ => True
  | i :: p', j :: q' => (i < j)%nat \/ (i = j /\ pathBefore p' q')
  | _, [] => False
  end.

Section CoreVocabulary.
Context {L : GoLib}.

(** The second walk of [CitationToBibliography] as one pass over the nodes
    in document order. *)
Fixpoint visitAll (names : list bytes) (nodes : list Node)
    (st : gmap bytes BibliographyItem * gmap bytes Slice)
  : result (gmap bytes BibliographyItem * gmap bytes Slice) :=
  match nodes with
  | [] => Ok st
  | n :: rest =>
      '(st, _) ← visitCitation names [] n true st;
      visitAll names rest st
  end.

(** Nodes that neither walk of [CitationToBibliography] looks at. *)
Definition inert (n : Node) : Prop :=
  match n with
  | Leaf (Citation _ _) | Leaf (ReferenceBlock _) | Leaf (TitleNode _) => False
  | _ => True
  end.

(** The payload of an item is the one that [rw], decoded or not, gives. *)
Definition payloadFrom (rw : Slice) (r : BibliographyItem) : Prop :=
  match xmlUnmarshal (elems rw) with
  | inr x => Reference_ r = Some x /\ ReferenceGroup r = None
  | inl _ => Reference_ r = None /\ ReferenceGroup r = Some rw
  end.

End CoreVocabulary.

Section MoreExampleDocuments.
#[local] Existing Instance exampleLib.

(** Back matter without citations. *)
Definition docPlain : Node :=
  Container OtherContainer [Leaf OtherLeaf; backMatter].

(** Two raw references with the same anchor up to case, the first
    well-formed, and a citation of that anchor. *)
Definition docTwoBlocks : Node :=
  Container OtherContainer
    [Leaf (ReferenceBlock (ofBytes exampleSource));
     cite "a" CitationTypeNormative;
     Leaf (ReferenceBlock (ofBytes (lit "<reference anchor='A'>x</reference>")))].

Definition janeTitle : Title :=
  {| TitleData_ :=
       Some {| Authors := [{| Fullname := lit "Jane Doe" |}];
               Contacts := [{| ContactFullname := lit "John Roe" |}] |} |}.

End MoreExampleDocuments.

(** * Properties *)

(** ** Slices and the anchor extractor *)

Lemma scanQuote_found mid post q i :
  q ∉ mid -> scanQuote (mid ++ q :: post) q i = i + Z.of_nat (length mid).
Proof.
  revert i. induction mid as [|c mid IH]; intros i Hq; simpl.
  - rewrite Ascii.eqb_refl. lia.
  - apply not_elem_of_cons in Hq as [Hc Hq].
    destruct (Ascii.eqb_spec c q) as [->|_]; [done|].
    rewrite IH by done. lia.
Qed.

Lemma scanQuote_missing rest q i :
  q ∉ rest -> scanQuote rest q i = i + Z.of_nat (length rest).
Proof.
  revert i. induction rest as [|c rest IH]; intros i Hq; simpl; [lia|].
  apply not_elem_of_cons in Hq as [Hc Hq].
  destruct (Ascii.eqb_spec c q) as [->|_]; [done|].
  rewrite IH by done. lia.
Qed.

Lemma scanQuote_bounds rest q i :
  i <= scanQuote rest q i <= i + Z.of_nat (length rest).
Proof.
  revert i. induction rest as [|c rest IH]; intros i; simpl; [lia|].
  destruct (Ascii.eqb c q); [lia|]. specialize (IH (i + 1)). lia.
Qed.

Lemma at_ok s i c :
  nth_error (elems s) i = Some c -> at_ s (Z.of_nat i) = Ok c.
Proof.
  intros H. unfold at_, len.
  assert (i < length (elems s))%nat by (apply nth_error_Some; congruence).
  rewrite Nat2Z.id, H.
  destruct (0 <=? Z.of_nat i) eqn:E1; [|lia].
  destruct (Z.of_nat i <? Z.of_nat (length (elems s))) eqn:E2; [done|lia].
Qed.

Lemma reslice_ok s lo hi :
  (lo <= hi)%nat -> (hi <= length (elems s))%nat ->
  reslice s (Z.of_nat lo) (Z.of_nat hi)
  = Ok (mkSlice (firstn (hi - lo) (skipn lo (elems s)))
                (skipn hi (elems s ++ spare s))).
Proof.
  intros H1 H2. unfold reslice, cap.
  destruct (0 <=? Z.of_nat lo) eqn:E1; [|lia].
  destruct (Z.of_nat lo <=? Z.of_nat hi) eqn:E2; [|lia].
  destruct (Z.of_nat hi <=? Z.of_nat (length (elems s) + length (spare s))) eqn:E3; [|lia].
  simpl. rewrite !Nat2Z.id. f_equal. f_equal.
  replace (Z.to_nat (Z.of_nat hi - Z.of_nat lo)) with (hi - lo)%nat by lia.
  rewrite skipn_app, firstn_app.
  rewrite length_skipn.
  replace (hi - lo - (length (elems s) - lo))%nat with 0%nat by lia.
  rewrite firstn_O, app_nil_r. done.
Qed.

Lemma anchorFromReference_at data pre q rest :
  hasOpener (elems data) ->
  elems data = (pre ++ lit "anchor=" ++ q :: rest)%list ->
  indexOpt (elems data) (lit "anchor=") = Some (length pre) ->
  anchorFromReference data =
    let i := scanQuote rest q (Z.of_nat (length pre) + 8) in
    if i >=? len data then Ok None
    else a ← reslice data (Z.of_nat (length pre) + 8) i; Ok (Some a).
Proof.
  intros Hop He Hi. unfold anchorFromReference, Index. rewrite Hi.
  replace (negb (HasPrefix (elems data) (lit "<reference ")) &&
           negb (HasPrefix (elems data) (lit "<referencegroup "))) with false
    by (destruct Hop as [-> | ->]; simpl; [done | by rewrite andb_false_r]).
  destruct (Z.of_nat (length pre) <? 0) eqn:E0; [lia|].
  assert (Hlen : len data = Z.of_nat (length pre) + 8 + Z.of_nat (length rest)).
  { unfold len. rewrite He, !length_app. simpl. lia. }
  destruct (Z.of_nat (length pre) + 7 >=? len data) eqn:E1; [lia|].
  replace (Z.of_nat (length pre) + 7) with (Z.of_nat (length pre + 7)) by lia.
  rewrite (at_ok data _ q).
  2:{ rewrite He, nth_error_app2 by lia.
      replace (length pre + 7 - length pre)%nat with 7%nat by lia. done. }
  simpl.
  replace (Z.to_nat (Z.of_nat (length pre + 7) + 1)) with (length pre + 8)%nat by lia.
  replace (skipn (length pre + 8) (elems data)) with rest.
  2:{ rewrite He. rewrite Nat.add_comm, <- skipn_skipn.
      rewrite skipn_app, skipn_all, Nat.sub_diag. done. }
  replace (Z.of_nat (length pre + 7) + 1) with (Z.of_nat (length pre) + 8) by lia.
  done.
Qed.

Lemma at_total s i : 0 <= i < len s -> exists c, at_ s i = Ok c.
Proof.
  intros H. unfold at_, len in *.
  destruct (nth_error (elems s) (Z.to_nat i)) as [c|] eqn:E.
  - exists c. destruct (0 <=? i) eqn:E1; [|lia].
    destruct (i <? Z.of_nat (length (elems s))) eqn:E2; [done|lia].
  - apply nth_error_None in E. lia.
Qed.

Lemma reslice_total s lo hi :
  0 <= lo <= hi -> hi <= len s -> exists r, reslice s lo hi = Ok r.
Proof.
  intros H1 H2. unfold reslice, cap, len in *.
  destruct (0 <=? lo) eqn:E1; [|lia].
  destruct (lo <=? hi) eqn:E2; [|lia].
  destruct (hi <=? Z.of_nat (length (elems s) + length (spare s))) eqn:E3; [|lia].
  simpl. eauto.
Qed.

(** The anchor extractor returns on every input. *)
Lemma anchorFromReference_total data :
  exists o, anchorFromReference data = Ok o.
Proof.
  unfold anchorFromReference.
  destruct (negb _ && negb _); [eauto|].
  unfold Index. destruct (indexOpt (elems data) (lit "anchor=")) as [a|] eqn:Ea.
  2:{ simpl. eauto. }
  destruct (Z.of_nat a <? 0) eqn:E0; [lia|].
  destruct (Z.of_nat a + 7 >=? len data) eqn:E1; [eauto|].
  destruct (at_total data (Z.of_nat a + 7)) as [q Hq]; [lia|].
  rewrite Hq. simpl.
  pose proof (scanQuote_bounds
    (skipn (Z.to_nat (Z.of_nat a + 7 + 1)) (elems data)) q (Z.of_nat a + 7 + 1)) as Hb.
  destruct (scanQuote _ q _ >=? len data) eqn:E2; [eauto|].
  match goal with |- context [reslice data ?lo ?hi] =>
    destruct (reslice_total data lo hi) as [r Hr]; [lia|lia|] end.
  rewrite Hr. simpl. eauto.
Qed.

(** ** Walks *)

Section Trees.
Context {L : GoLib}.

Lemma Node_ind' (P : Node -> Prop) :
  (forall k, P (Leaf k)) ->
  (forall k cs, Forall P cs -> P (Container k cs)) ->
  forall n, P n.
Proof.
  intros HL HC. fix IH 1. intros [k|k cs]; [apply HL|].
  apply HC. induction cs as [|c cs IHcs]; constructor; [apply IH | exact IHcs].
Qed.

Section WalkLemmas.
Context {S : Type} (visit : path -> Node -> bool -> S -> result (S * WalkStatus)).

Lemma Walk_container p k cs s :
  Walk visit p (Container k cs) s =
  '(s, status) ← visit p (Container k cs) true s;
  match status with
  | Terminate => '(s, _) ← visit p (Container k cs) false s; Ok (s, Terminate)
  | SkipChildren => leave visit p (Container k cs) s
  | GoToNext =>
      '(s, status) ← WalkChildren visit p cs 0%nat s;
      match status with
      | Terminate => Ok (s, Terminate)
      | _ => leave visit p (Container k cs) s
      end
  end.
Proof. reflexivity. Qed.

Lemma WalkChildren_cons p c cs i s :
  WalkChildren visit p (c :: cs) i s =
  '(s, status) ← Walk visit (p ++ [i]) c s;
  match status with
  | Terminate => Ok (s, Terminate)
  | _ => WalkChildren visit p cs (Datatypes.S i) s
  end.
Proof. reflexivity. Qed.

(** An invariant of the callback, on the nodes of the tree, is an invariant
    of the walk. *)
Lemma Walk_inv (P : S -> Prop) (Q : Node -> Prop) :
  (forall p n e s s' st, Q n -> P s -> visit p n e s = Ok (s', st) -> P s') ->
  forall n p s s' st,
    Forall Q (preorder n) -> P s -> Walk visit p n s = Ok (s', st) -> P s'.
Proof.
  intros Hv. induction n as [k|k cs IH] using Node_ind'; intros p s s' st HQ Hs.
  - apply Forall_cons in HQ as [HQ _].
    simpl. destruct (visit p (Leaf k) true s) as [[s1 st1]|] eqn:E; [|done].
    simpl. intros H. apply Hv in E; [|done|done].
    destruct st1; by simplify_eq.
  - cbn [preorder] in HQ. apply Forall_cons in HQ as [HQ HQcs].
    rewrite Walk_container.
    destruct (visit p (Container k cs) true s) as [[s1 st1]|] eqn:E; [|done].
    apply Hv in E; [|done|done]. simpl.
    assert (Hleave : forall s2 s3 st3, P s2 ->
              leave visit p (Container k cs) s2 = Ok (s3, st3) -> P s3).
    { intros s2 s3 st3 H2. unfold leave.
      destruct (visit p (Container k cs) false s2) as [[s4 st4]|] eqn:E4; [|done].
      apply Hv in E4; [|done|done]. simpl. destruct st4; intros; by simplify_eq. }
    assert (Hcs : forall i s2 s3 st3, P s2 ->
              WalkChildren visit p cs i s2 = Ok (s3, st3) -> P s3).
    { clear -IH HQcs. induction IH as [|c cs Hc _ IHcs]; intros i s2 s3 st3 H2.
      - simpl. intros; by simplify_eq.
      - cbn [flat_map] in HQcs. apply Forall_app in HQcs as [HQc HQcs].
        rewrite WalkChildren_cons.
        destruct (Walk visit (p ++ [i]) c s2) as [[s4 st4]|] eqn:E4; [|done].
        apply Hc in E4; [|done|done]. simpl.
        destruct st4; try (by apply IHcs). intros; by simplify_eq. }
    destruct st1.
    + destruct (WalkChildren visit p cs 0 s1) as [[s2 st2]|] eqn:E2; [|done].
      apply Hcs in E2; [|done]. simpl.
      destruct st2; try (by apply Hleave). intros; by simplify_eq.
    + by apply Hleave.
    + destruct (visit p (Container k cs) false s1) as [[s4 st4]|] eqn:E4; [|done].
      apply Hv in E4; [|done|done]. simpl. intros; by simplify_eq.
Qed.

(** A callback that returns on every well-formed node makes the walk of a
    well-formed tree return. *)
Lemma Walk_total :
  (forall p n e s, wfNode n = true -> exists r, visit p n e s = Ok r) ->
  forall n p s, wfDoc n = true -> exists r, Walk visit p n s = Ok r.
Proof.
  intros Hv. induction n as [k|k cs IH] using Node_ind'; intros p s Hwf.
  - simpl in Hwf. apply andb_true_iff in Hwf as [Hwf _].
    destruct (Hv p (Leaf k) true s Hwf) as [[s1 st1] E].
    simpl. rewrite E. simpl. destruct st1; eauto.
  - cbn [wfDoc] in Hwf. apply andb_true_iff in Hwf as [Hwf Hcs].
    rewrite Walk_container.
    destruct (Hv p (Container k cs) true s Hwf) as [[s1 st1] E]. rewrite E. simpl.
    assert (Hleave : forall s2, exists r, leave visit p (Container k cs) s2 = Ok r).
    { intros s2. unfold leave.
      destruct (Hv p (Container k cs) false s2 Hwf) as [[s3 st3] E3]. rewrite E3.
      simpl. destruct st3; eauto. }
    assert (Hch : forall i s2, exists r, WalkChildren visit p cs i s2 = Ok r).
    { clear -IH Hcs. induction IH as [|c cs Hc _ IHcs]; intros i s2.
      - simpl. eauto.
      - simpl in Hcs. apply andb_true_iff in Hcs as [Hc' Hcs'].
        rewrite WalkChildren_cons.
        destruct (Hc (p ++ [i]) s2 Hc') as [[s3 st3] E3]. rewrite E3. simpl.
        destruct st3; eauto. }
    destruct st1.
    + destruct (Hch 0%nat s1) as [[s2 st2] E2]. rewrite E2. simpl.
      destruct st2; eauto.
    + eauto.
    + destruct (Hv p (Container k cs) false s1 Hwf) as [[s3 st3] E3]. rewrite E3.
      simpl. eauto.
Qed.

End WalkLemmas.

(** The first walk of [CitationToBibliography] stops at the first title in
    document order. *)
Lemma Walk_visitTitle n : forall p names,
  Walk visitTitle p n names =
  match head (omap asTitle (preorder n)) with
  | Some t => names' ← authContFromTitle (Some t); Ok (names', Terminate)
  | None => Ok (names, GoToNext)
  end.
Proof.
  induction n as [k|k cs IH] using Node_ind'; intros p names.
  - destruct k; try reflexivity.
    simpl. destruct (TitleData_ t); reflexivity.
  - rewrite Walk_container.
    replace (visitTitle p (Container k cs) true names) with (Ok (names, GoToNext))
      by (by destruct k).
    cbn [preorder omap list_omap asTitle]. simpl mbind at 1.
    assert (Hch : forall i,
      WalkChildren visitTitle p cs i names =
      match head (omap asTitle (flat_map preorder cs)) with
      | Some t => names' ← authContFromTitle (Some t); Ok (names', Terminate)
      | None => Ok (names, GoToNext)
      end).
    { clear -IH. induction IH as [|c cs Hc _ IHcs]; intros i; [done|].
      rewrite WalkChildren_cons, Hc. cbn [flat_map]. rewrite omap_app.
      destruct (omap asTitle (preorder c)) as [|t ts]; simpl.
      - apply IHcs.
      - destruct (TitleData_ t); reflexivity. }
    rewrite Hch.
    destruct (head (omap asTitle (flat_map preorder cs))) as [t|]; simpl.
    + destruct (TitleData_ t); reflexivity.
    + unfold leave. by destruct k.
Qed.

Lemma WalkFunc_visitTitle doc :
  WalkFunc visitTitle doc [] =
  match firstTitle doc with
  | Some t => authContFromTitle (Some t)
  | None => Ok []
  end.
Proof.
  unfold WalkFunc, firstTitle. rewrite Walk_visitTitle.
  destruct (head (omap asTitle (preorder doc))) as [t|]; [|done].
  simpl. destruct (TitleData_ t); reflexivity.
Qed.

(** [NodeBackMatter] returns, and it finds a back-matter node exactly when
    the tree has one. *)
Lemma Walk_visitBackMatter n : forall p m,
  (Walk visitBackMatter p n m = Ok (m, GoToNext)
   /\ forall q c, nodeAt q n = Some c -> ~ isBackMatter c)
  \/ (exists q c, Walk visitBackMatter p n m = Ok (Some (p ++ q), Terminate)
      /\ nodeAt q n = Some c /\ isBackMatter c).
Proof.
  induction n as [k|k cs IH] using Node_ind'; intros p m.
  - left. split; [by destruct k|].
    intros [|i q] c; simpl; [|done]. intros [= <-] [cs' ?]. done.
  - assert (Hdec : {k = DocumentMatter DocumentMatterBack}
                   + {k <> DocumentMatter DocumentMatterBack})
      by (destruct k as [[]| | |]; (by left) || (by right)).
    destruct Hdec as [->|Hk].
    { right. exists [], (Container (DocumentMatter DocumentMatterBack) cs).
      rewrite app_nil_r. split; [reflexivity|]. split; [done|]. by eexists. }
    assert (Hv : forall e m', visitBackMatter p (Container k cs) e m' = Ok (m', GoToNext)).
    { intros e m'. destruct k as [mat| | |]; try done. simpl.
      destruct (decide (mat = DocumentMatterBack)); [congruence|done]. }
    assert (HW : Walk visitBackMatter p (Container k cs) m =
                 '(s, status) ← WalkChildren visitBackMatter p cs 0%nat m;
                 match status with
                 | Terminate => Ok (s, Terminate)
                 | _ => Ok (s, GoToNext)
                 end).
    { rewrite Walk_container, Hv. simpl.
      destruct (WalkChildren visitBackMatter p cs 0 m) as [[s st]|]; [|done].
      simpl. unfold leave. rewrite Hv. by destruct st. }
    rewrite HW. clear HW Hv.
    assert (Hch : forall i,
      (WalkChildren visitBackMatter p cs i m = Ok (m, GoToNext)
       /\ forall j c q c', nth_error cs j = Some c -> nodeAt q c = Some c' -> ~ isBackMatter c')
      \/ (exists j c q c', nth_error cs j = Some c /\ nodeAt q c = Some c' /\ isBackMatter c'
          /\ WalkChildren visitBackMatter p cs i m = Ok (Some (p ++ (i + j)%nat :: q), Terminate))).
    { clear -IH. induction IH as [|c cs Hc _ IHcs]; intros i.
      - left. split; [done|]. intros [|j]; done.
      - rewrite WalkChildren_cons.
        destruct (Hc (p ++ [i]) m) as [[E Hno]|(q & c' & E & Hq & Hb)]; rewrite E; simpl.
        + destruct (IHcs (Datatypes.S i)) as [[E' Hno']|(j & c1 & q & c' & Hj & Hq & Hb & E')].
          * left. split; [done|]. intros [|j] c1 q c'; simpl; [|by apply Hno'].
            intros [= <-]. apply Hno.
          * right. exists (Datatypes.S j), c1, q, c'. split; [done|]. split; [done|]. split; [done|].
            rewrite E'. by replace (i + Datatypes.S j)%nat with (Datatypes.S i + j)%nat by lia.
        + right. exists 0%nat, c, q, c'. split; [done|]. split; [done|]. split; [done|].
          by rewrite <- app_assoc, Nat.add_0_r. }
    destruct (Hch 0%nat) as [[E Hno]|(j & c1 & q & c' & Hj & Hq & Hb & E)]; rewrite E; simpl.
    + left. split; [done|].
      intros [|j q] c; cbn [nodeAt].
      * intros [= <-] [cs' ?]. congruence.
      * intros Hq. destruct (nth_error cs j) as [c1|] eqn:Ej; [|done]. by apply (Hno j c1 q).
    + right. exists (j :: q), c'. split; [done|]. split; [|done]. cbn [nodeAt]. by rewrite Hj.
Qed.

Lemma NodeBackMatter_spec doc :
  (NodeBackMatter doc = Ok None
   /\ forall q c, nodeAt q doc = Some c -> ~ isBackMatter c)
  \/ (exists q c, NodeBackMatter doc = Ok (Some q)
      /\ nodeAt q doc = Some c /\ isBackMatter c).
Proof.
  unfold NodeBackMatter, WalkFunc.
  destruct (Walk_visitBackMatter doc [] None) as [[E H]|(q & c & E & H)]; rewrite E.
  - by left.
  - right. by exists q, c.
Qed.

End Trees.

(** ** The collector *)

Section Collector.
Context {L : GoLib}.

Lemma existsb_false {A} (f : A -> bool) l :
  existsb f l = false -> forall x, x ∈ l -> f x = false.
Proof.
  induction l as [|a l IH]; simpl; intros H x Hx; [by apply elem_of_nil in Hx|].
  apply orb_false_iff in H as [Ha Hl].
  apply elem_of_cons in Hx as [->|Hx]; auto.
Qed.

Lemma destinations_inv names doc types all ds : forall i seen seen',
  Leaf (Citation all types) ∈ preorder doc ->
  (forall j d, nth_error ds j = Some d -> nth_error all (i + j) = Some d) ->
  seenInv names doc seen ->
  destinations names types ds i seen = Ok seen' ->
  seenInv names doc seen'.
Proof.
  induction ds as [|d ds IH]; intros i seen seen' Hin Hds Hinv; simpl.
  - intros; by simplify_eq.
  - assert (Hds' : forall j d', nth_error ds j = Some d' ->
                                nth_error all (S i + j) = Some d').
    { intros j d' Hj. specialize (Hds (S j) d' Hj).
      by replace (i + S j)%nat with (S i + j)%nat in Hds by lia. }
    destruct (existsb _ names) eqn:En; [by apply IH|].
    destruct (bool_decide _); [by apply IH|].
    destruct (nth_error types i) as [t|] eqn:Et; [|done].
    apply IH; [done|done|]. intros k r. rewrite lookup_insert. case_decide as Hk.
    + intros [= <-]. subst k. split; [done|]. split; [done|]. split; [done|].
      split; [intros name Hname; by apply (existsb_false _ _ En)|].
      exists all, types, i. split; [done|]. split; [|done].
      specialize (Hds 0%nat d eq_refl). by rewrite Nat.add_0_r in Hds.
    + apply Hinv.
Qed.

Lemma destinations_total names types ds : forall i seen,
  (i + length ds <= length types)%nat ->
  exists seen', destinations names types ds i seen = Ok seen'.
Proof.
  induction ds as [|d ds IH]; intros i seen Hlen; simpl in *; [eauto|].
  destruct (existsb _ names); [apply IH; lia|].
  destruct (bool_decide _); [apply IH; lia|].
  destruct (nth_error types i) as [t|] eqn:Et.
  - apply IH. lia.
  - apply nth_error_None in Et. lia.
Qed.

Lemma visitCitation_inv names doc p n e seen raw seen' raw' st :
  n ∈ preorder doc ->
  seenInv names doc seen /\ rawInv doc raw ->
  visitCitation names p n e (seen, raw) = Ok (seen', raw', st) ->
  seenInv names doc seen' /\ rawInv doc raw'.
Proof.
  intros Hn [Hinv Hraw]. destruct n as [[ds ts|lit0|t|r|]|k cs]; simpl;
    try (intros; by simplify_eq).
  - destruct (destinations names ts ds 0 seen) as [s1|] eqn:E; [|done].
    simpl. intros; simplify_eq. split; [|done].
    by eapply (destinations_inv names doc ts ds ds 0%nat).
  - destruct (anchorFromReference lit0) as [[a|]|] eqn:Ea; simpl;
      intros; simplify_eq; try done.
    split; [done|]. intros key rw. rewrite lookup_insert. case_decide as Hk.
    + intros [= <-]. subst key. by exists a.
    + apply Hraw.
Qed.

Lemma visitCitation_total names p n e st :
  wfNode n = true -> exists r, visitCitation names p n e st = Ok r.
Proof.
  intros Hwf. destruct st as [seen raw].
  destruct n as [[ds ts|lit0|t|r|]|k cs]; simpl; eauto.
  - destruct (destinations_total names ts ds 0%nat seen) as [s1 E].
    { simpl in Hwf. lia. }
    rewrite E. simpl. eauto.
  - destruct (anchorFromReference_total lit0) as [[a|] E]; rewrite E; simpl; eauto.
Qed.

Lemma visitTitle_total p n e names :
  wfNode n = true -> exists r, visitTitle p n e names = Ok r.
Proof.
  intros Hwf. destruct n as [[ds ts|lit0|t|r|]|k cs]; simpl; eauto.
  simpl in Hwf. apply bool_decide_eq_true in Hwf as [d Hd]. rewrite Hd. simpl. eauto.
Qed.

Lemma collect_total doc :
  wfDoc doc = true -> exists seen raw, collect doc = Ok (seen, raw).
Proof.
  intros Hwf. unfold collect, WalkFunc.
  destruct (Walk_total visitTitle visitTitle_total doc [] [] Hwf) as [[names st] E].
  rewrite E. simpl.
  destruct (Walk_total (visitCitation names)
              (visitCitation_total names) doc [] (∅, ∅) Hwf) as [[[seen raw] st'] E'].
  rewrite E'. simpl. eauto.
Qed.

Lemma collect_inv doc seen raw :
  collect doc = Ok (seen, raw) ->
  exists names,
    WalkFunc visitTitle doc [] = Ok names
    /\ seenInv names doc seen /\ rawInv doc raw.
Proof.
  unfold collect. destruct (WalkFunc visitTitle doc []) as [names|] eqn:En; [|done].
  simpl. intros H. exists names. split; [done|].
  unfold WalkFunc in H.
  destruct (Walk (visitCitation names) [] doc (∅, ∅)) as [[[s1 r1] st]|] eqn:E; [|done].
  simpl in H. simplify_eq.
  refine (Walk_inv (visitCitation names)
            (fun s => seenInv names doc s.1 /\ rawInv doc s.2)
            (fun n => n ∈ preorder doc) _
            doc [] (∅, ∅) (seen, raw) st _ _ E).
  - intros p n e [s0 r0] [s2 r2] st0 Hn. simpl.
    apply (visitCitation_inv names doc p n e _ _ _ _ _ Hn).
  - by apply Forall_forall.
  - split; intros k r; simpl; by rewrite lookup_empty.
Qed.

End Collector.

(** ** The order of [sort.Strings] *)

Lemma nat_of_ascii_inj x y : nat_of_ascii x = nat_of_ascii y -> x = y.
Proof.
  intros H. rewrite <- (ascii_nat_embedding x), <- (ascii_nat_embedding y).
  by rewrite H.
Qed.

Global Instance strLe_total : Total strLe.
Proof.
  intros a. unfold strLe. induction a as [|x a IH]; intros [|y b]; simpl; auto.
  destruct (nat_of_ascii x <? nat_of_ascii y)%nat eqn:E1;
    destruct (nat_of_ascii y <? nat_of_ascii x)%nat eqn:E2; auto.
Qed.

Global Instance strLe_trans : Transitive strLe.
Proof.
  intros a. unfold strLe. induction a as [|x a IH]; intros [|y b] [|z c]; simpl; try done.
  destruct (nat_of_ascii x <? nat_of_ascii y)%nat eqn:E1;
    destruct (nat_of_ascii y <? nat_of_ascii x)%nat eqn:E2;
    destruct (nat_of_ascii y <? nat_of_ascii z)%nat eqn:E3;
    destruct (nat_of_ascii z <? nat_of_ascii y)%nat eqn:E4;
    destruct (nat_of_ascii x <? nat_of_ascii z)%nat eqn:E5;
    destruct (nat_of_ascii z <? nat_of_ascii x)%nat eqn:E6;
    try done; try lia.
  apply IH.
Qed.

Global Instance strLe_antisym : AntiSymm (=) strLe.
Proof.
  intros a. unfold strLe. induction a as [|x a IH]; intros [|y b]; simpl; try done.
  destruct (nat_of_ascii x <? nat_of_ascii y)%nat eqn:E1;
    destruct (nat_of_ascii y <? nat_of_ascii x)%nat eqn:E2; try done; try lia.
  intros H1 H2. f_equal; [apply nat_of_ascii_inj; lia | by apply IH].
Qed.

Lemma sortStrings_sorted l : StronglySorted strLe (sortStrings l).
Proof. apply (StronglySorted_merge_sort strLe). Qed.

Lemma sortStrings_perm l : sortStrings l ≡ₚ l.
Proof. apply (merge_sort_Permutation strLe). Qed.

(** Sorting forgets the order in which the keys came. *)
Lemma sortStrings_order l l' : l ≡ₚ l' -> sortStrings l = sortStrings l'.
Proof.
  intros H. apply (StronglySorted_unique strLe); try apply sortStrings_sorted.
  by rewrite !sortStrings_perm.
Qed.

Lemma StronglySorted_map_filter {A B} (R : relation B) (g : A -> B)
    (P : A -> Prop) `{!forall x, Decision (P x)} (l : list A) :
  StronglySorted R (map g l) -> StronglySorted R (map g (filter P l)).
Proof.
  induction l as [|a l IH]; simpl; [done|].
  intros [Hs Hall]%StronglySorted_inv. rewrite filter_cons.
  destruct (decide (P a)); [|by apply IH]. simpl. constructor; [by apply IH|].
  rewrite Forall_forall in Hall |- *. intros y Hy. apply Hall.
  apply list_elem_of_In, in_map_iff in Hy as (z & <- & Hz).
  apply list_elem_of_In, in_map, list_elem_of_In.
  apply list_elem_of_In in Hz. by apply list_elem_of_filter in Hz as [_ Hz].
Qed.

Section Assembler.
Context {L : GoLib}.

Lemma resolve_Type raw r : Type_ (resolve raw r).1 = Type_ r.
Proof. unfold resolve. destruct (raw !! _); [|done]. by destruct (xmlUnmarshal _). Qed.

Lemma resolve_Anchor raw r : Anchor (resolve raw r).1 = Anchor r.
Proof. unfold resolve. destruct (raw !! _); [|done]. by destruct (xmlUnmarshal _). Qed.

Lemma appendItem_bibliography typ items r :
  appendItem (bibliography typ items) typ r = Ok (bibliography typ (items ++ [r])).
Proof.
  unfold appendItem, bibliography. destruct items as [|x items]; [done|].
  simpl. rewrite map_app. done.
Qed.

(** The loop of the assembler appends, to each group, the resolved items of
    its kind in the order of the keys. *)
Lemma assemble_spec seen raw keys : forall ns is_ lg,
  Forall (fun k => is_Some (seen !! k)) keys ->
  let items := omap (fun k => seen !! k) keys in
  let resolved := map (fun r => (resolve raw r).1) items in
  assemble seen raw keys
    (bibliography CitationTypeNormative ns)
    (bibliography CitationTypeInformative is_) lg
  = Ok (bibliography CitationTypeNormative (ns ++ filter isNormative resolved),
        bibliography CitationTypeInformative (is_ ++ filter isInformative resolved),
        lg ++ concat (map (fun r => (resolve raw r).2) items)).
Proof.
  induction keys as [|k keys IH]; intros ns is_ lg Hk; simpl.
  - by rewrite !app_nil_r.
  - apply Forall_cons in Hk as [[r Hr] Hk]. rewrite Hr. simpl.
    pose proof (resolve_Type raw r) as HT.
    destruct (resolve raw r) as [r' out] eqn:Er. simpl in HT.
    assert (HN : isNormative r' <-> Type_ r' = CitationTypeNormative) by done.
    assert (HI : isInformative r' <->
                 Type_ r' = CitationTypeSuppressed \/ Type_ r' = CitationTypeInformative) by done.
    destruct (Type_ r') eqn:Et.
    + rewrite (IH ns is_ (lg ++ out) Hk).
      rewrite !filter_cons_False by (rewrite ?HN, ?HI; intuition congruence).
      by rewrite <- app_assoc.
    + rewrite appendItem_bibliography. simpl.
      rewrite (IH ns (is_ ++ [r']) (lg ++ out) Hk).
      rewrite filter_cons_False, filter_cons_True by (rewrite ?HN, ?HI; intuition congruence).
      by rewrite <- !app_assoc.
    + rewrite appendItem_bibliography. simpl.
      rewrite (IH ns (is_ ++ [r']) (lg ++ out) Hk).
      rewrite filter_cons_False, filter_cons_True by (rewrite ?HN, ?HI; intuition congruence).
      by rewrite <- !app_assoc.
    + rewrite appendItem_bibliography. simpl.
      rewrite (IH (ns ++ [r']) is_ (lg ++ out) Hk).
      rewrite filter_cons_True, filter_cons_False by (rewrite ?HN, ?HI; intuition congruence).
      by rewrite <- !app_assoc.
Qed.

Lemma keysOf_lookup seen k : k ∈ keysOf seen <-> is_Some (seen !! k).
Proof.
  unfold keysOf. rewrite list_elem_of_fmap. split.
  - intros ([k' r] & -> & H). apply elem_of_map_to_list in H. by exists r.
  - intros [r H]. exists (k, r). split; [done|]. by apply elem_of_map_to_list.
Qed.

(** [CitationToBibliography] in one equation: the groups are the resolved
    items of each kind in ascending key order, whatever the order in which
    the keys of the map were visited. *)
Lemma CitationToBibliographyIn_spec order doc :
  (forall l, order l ≡ₚ l) ->
  CitationToBibliographyIn order doc =
  '(seen, raw) ← collect doc;
  Ok (bibliography CitationTypeNormative (filter isNormative (resolvedItems seen raw)),
      bibliography CitationTypeInformative (filter isInformative (resolvedItems seen raw)),
      resolveLog seen raw).
Proof.
  intros Hord. unfold CitationToBibliographyIn.
  destruct (collect doc) as [[seen raw]|]; [|done]. simpl.
  rewrite (sortStrings_order (order (keysOf seen)) (keysOf seen)) by apply Hord.
  apply (assemble_spec seen raw (sortStrings (keysOf seen)) [] [] []).
  apply Forall_forall. intros k Hk. apply keysOf_lookup.
  by rewrite <- (sortStrings_perm (keysOf seen)).
Qed.

Lemma CitationToBibliography_spec doc :
  CitationToBibliography doc =
  '(seen, raw) ← collect doc;
  Ok (bibliography CitationTypeNormative (filter isNormative (resolvedItems seen raw)),
      bibliography CitationTypeInformative (filter isInformative (resolvedItems seen raw)),
      resolveLog seen raw).
Proof. by apply CitationToBibliographyIn_spec. Qed.

End Assembler.

(** ** The splicer *)

Section Splicer.
Context {L : GoLib}.

Lemma updateAt_replaceAt f new : forall p doc old,
  nodeAt p doc = Some old -> f old = Ok new ->
  updateAt p f doc = Ok (replaceAt p new doc).
Proof.
  induction p as [|i p IH]; intros doc old; simpl.
  - intros [= ->] Hf. done.
  - destruct doc as [k|k cs]; [done|].
    destruct (nth_error cs i) as [c|] eqn:Ec; [|done].
    intros Hc Hf. by rewrite (IH c old Hc Hf).
Qed.

Lemma replaceAt_app new q : forall p doc old,
  nodeAt p doc = Some old ->
  replaceAt (p ++ q) new doc = replaceAt p (replaceAt q new old) doc.
Proof.
  induction p as [|i p IH]; intros doc old; simpl.
  - by intros [= ->].
  - destruct doc as [k|k cs]; [done|].
    destruct (nth_error cs i) as [c|] eqn:Ec; [|done].
    intros Hc. by rewrite (IH c old Hc).
Qed.

Lemma nodeAt_app q : forall p doc,
  nodeAt (p ++ q) doc = nodeAt p doc ≫= nodeAt q.
Proof.
  induction p as [|i p IH]; intros doc; simpl; [done|].
  destruct doc as [k|k cs]; [done|].
  destruct (nth_error cs i) as [c|]; [apply IH|done].
Qed.

Lemma nth_error_middle {A} (l1 l2 : list A) x :
  nth_error (l1 ++ x :: l2) (length l1) = Some x.
Proof. rewrite nth_error_app2 by lia. by rewrite Nat.sub_diag. Qed.

Lemma firstn_middle {A} (l1 l2 : list A) x :
  firstn (length l1) (l1 ++ x :: l2) = l1.
Proof. induction l1 as [|a l1 IH]; [done|]. simpl. by rewrite IH. Qed.

Lemma skipn_middle {A} (l1 l2 : list A) x :
  skipn (S (length l1)) (l1 ++ x :: l2) = l2.
Proof.
  induction l1 as [|a l1 IH]; [done|]. exact IH.
Qed.

(** A list split around its element number [i]. *)
Lemma split_at {A} (cs : list A) i c :
  nth_error cs i = Some c ->
  cs = firstn i cs ++ c :: skipn (S i) cs /\ length (firstn i cs) = i.
Proof.
  revert i. induction cs as [|a cs IH]; intros [|i]; simpl; try done.
  - by intros [= ->].
  - intros H. destruct (IH i H) as [H1 H2]. split; [by f_equal|by f_equal].
Qed.

Lemma nodeAt_replaceAt new : forall p doc old,
  nodeAt p doc = Some old -> nodeAt p (replaceAt p new doc) = Some new.
Proof.
  induction p as [|i p IH]; intros doc old; simpl; [done|].
  destruct doc as [k|k cs]; [done|].
  destruct (nth_error cs i) as [c|] eqn:Ec; [|done].
  intros Hc. cbn [nodeAt].
  destruct (split_at cs i c Ec) as [_ Hl].
  set (l1 := firstn i cs) in *. set (l2 := skipn (S i) cs).
  rewrite <- Hl. rewrite nth_error_middle. by apply (IH c old).
Qed.

Lemma replaceAt_twice a b : forall p doc old,
  nodeAt p doc = Some old ->
  replaceAt p b (replaceAt p a doc) = replaceAt p b doc.
Proof.
  induction p as [|i p IH]; intros doc old; simpl; [done|].
  destruct doc as [k|k cs]; [done|].
  destruct (nth_error cs i) as [c|] eqn:Ec; [|done].
  intros Hc. cbn [replaceAt].
  destruct (split_at cs i c Ec) as [_ Hl].
  set (l1 := firstn i cs) in *. set (l2 := skipn (S i) cs).
  rewrite <- Hl. rewrite nth_error_middle, firstn_middle, skipn_middle.
  by rewrite (IH c old Hc).
Qed.

Lemma replaceAt_same : forall p doc old,
  nodeAt p doc = Some old -> replaceAt p old doc = doc.
Proof.
  induction p as [|i p IH]; intros doc old; simpl.
  - by intros [= ->].
  - destruct doc as [k|k cs]; [done|].
    destruct (nth_error cs i) as [c|] eqn:Ec; [|done].
    intros Hc. rewrite (IH c old Hc).
    f_equal. symmetry. by apply split_at.
Qed.

Lemma AppendChildAt_container doc p k cs child :
  nodeAt p doc = Some (Container k cs) ->
  AppendChildAt doc p child =
  Ok (replaceAt p (Container k (cs ++ [child])) doc, p ++ [length cs]).
Proof.
  intros Hp. unfold AppendChildAt. rewrite Hp.
  by rewrite (updateAt_replaceAt _ (Container k (cs ++ [child])) p doc _ Hp).
Qed.

(** Appending to a container that was itself just appended as the last
    child of the node at [p]. *)
Lemma AppendChildAt_last doc p k cs k' cs' child :
  nodeAt p doc = Some (Container k cs) ->
  AppendChildAt (replaceAt p (Container k (cs ++ [Container k' cs'])) doc)
                (p ++ [length cs]) child =
  Ok (replaceAt p (Container k (cs ++ [Container k' (cs' ++ [child])])) doc,
      (p ++ [length cs]) ++ [length cs']).
Proof.
  intros Hp.
  set (doc1 := replaceAt p (Container k (cs ++ [Container k' cs'])) doc).
  assert (H1 : nodeAt p doc1 = Some (Container k (cs ++ [Container k' cs'])))
    by (by apply (nodeAt_replaceAt _ p doc (Container k cs))).
  assert (H2 : nodeAt (p ++ [length cs]) doc1 = Some (Container k' cs')).
  { rewrite nodeAt_app, H1. cbn [mbind option_bind nodeAt].
    by rewrite nth_error_middle. }
  rewrite (AppendChildAt_container doc1 _ k' cs' child H2). f_equal. f_equal.
  rewrite (replaceAt_app _ _ p doc1 _ H1). cbn [replaceAt].
  rewrite nth_error_middle, firstn_middle, skipn_middle.
  unfold doc1. by apply (replaceAt_twice _ _ p doc (Container k cs)).
Qed.

Lemma bibliography_Some typ items :
  is_Some (bibliography typ items) <-> items <> [].
Proof.
  destruct items; simpl; split; try done; by intros [? ?].
Qed.

Lemma CitationToBibliography_total doc :
  wfDoc doc = true ->
  exists seen raw, collect doc = Ok (seen, raw) /\
    CitationToBibliography doc =
    Ok (bibliography CitationTypeNormative (filter isNormative (resolvedItems seen raw)),
        bibliography CitationTypeInformative (filter isInformative (resolvedItems seen raw)),
        resolveLog seen raw).
Proof.
  intros Hwf. destruct (collect_total doc Hwf) as (seen & raw & E).
  exists seen, raw. split; [done|]. by rewrite CitationToBibliography_spec, E.
Qed.

Lemma AddBibliography_spec doc norm inform lg :
  CitationToBibliography doc = Ok (norm, inform, lg) ->
  ((forall q c, nodeAt q doc = Some c -> ~ isBackMatter c)
   /\ AddBibliography doc =
      Ok (doc, false,
          lg ++ if bool_decide (is_Some norm \/ is_Some inform)
                then [LogNoBackmatter] else []))
  \/ (exists p cs,
        nodeAt p doc = Some (Container (DocumentMatter DocumentMatterBack) cs)
        /\ AddBibliography doc =
           Ok (replaceAt p (Container (DocumentMatter DocumentMatterBack)
                              (cs ++ attached norm inform)) doc,
               bool_decide (is_Some norm \/ is_Some inform), lg)).
Proof.
  intros E. unfold AddBibliography, AddBibliographyIn. unfold CitationToBibliography in E.
  rewrite E. cbn [mbind result_bind].
  destruct (NodeBackMatter_spec doc) as [[Eb Hno]|(p & c & Eb & Hp & [cs ->])];
    rewrite Eb; cbn [mbind result_bind].
  - left. split; [done|]. f_equal. f_equal.
    destruct norm, inform; simpl; try (by rewrite app_nil_r);
      rewrite ?bool_decide_eq_true_2 by eauto; try done.
  - right. exists p, cs. split; [done|].
    destruct norm as [n|], inform as [i|]; cbn [attached].
    + rewrite (AppendChildAt_container doc p _ cs _ Hp). cbn [mbind result_bind].
      rewrite (AppendChildAt_last doc p _ cs _ [] n Hp). cbn [mbind result_bind app].
      rewrite (AppendChildAt_last doc p _ cs _ [n] i Hp). cbn [mbind result_bind app].
      done.
    + cbn [mbind result_bind].
      rewrite (AppendChildAt_container doc p _ cs _ Hp). cbn [mbind result_bind].
      done.
    + cbn [mbind result_bind].
      rewrite (AppendChildAt_container doc p _ cs _ Hp). cbn [mbind result_bind].
      done.
    + cbn [mbind result_bind]. rewrite app_nil_r.
      rewrite (replaceAt_same p doc _ Hp). done.
Qed.

End Splicer.

(** ** The claims *)

Section Claims.
Context {L : GoLib}.

Lemma resolvedItems_elem seen raw r' :
  r' ∈ resolvedItems seen raw <->
  exists k r, seen !! k = Some r /\ r' = (resolve raw r).1.
Proof.
  unfold resolvedItems, sortedItems.
  change (map ?f ?l) with (f <$> l). rewrite list_elem_of_fmap. split.
  - intros (r & -> & Hr). apply list_elem_of_omap in Hr as (k & _ & Hk). eauto.
  - intros (k & r & Hk & ->). exists r. split; [done|].
    apply list_elem_of_omap. exists k. split; [|done].
    rewrite sortStrings_perm. apply keysOf_lookup. eauto.
Qed.

Lemma resolveLog_elem seen raw k r entry :
  seen !! k = Some r -> entry ∈ (resolve raw r).2 -> entry ∈ resolveLog seen raw.
Proof.
  intros Hk He. unfold resolveLog, sortedItems.
  apply list_elem_of_In, in_concat. exists (resolve raw r).2.
  split; [|by apply list_elem_of_In].
  apply in_map_iff. exists r. split; [done|].
  apply list_elem_of_In, list_elem_of_omap. exists k. split; [|done].
  rewrite sortStrings_perm. apply keysOf_lookup. eauto.
Qed.

Lemma resolveLog_entries seen raw entry :
  entry ∈ resolveLog seen raw -> exists a e, entry = LogUnmarshalFailed a e.
Proof.
  unfold resolveLog. intros H. apply list_elem_of_In, in_concat in H as (l & Hl & He).
  apply in_map_iff in Hl as (r & <- & _). unfold resolve in He.
  destruct (raw !! _) as [rw|]; [|done].
  destruct (xmlUnmarshal (elems rw)) as [e|x]; [|done].
  destruct He as [<-|[]]. eauto.
Qed.

Lemma sortedItems_anchors names doc seen :
  seenInv names doc seen ->
  map anchorOf (sortedItems seen) = sortStrings (keysOf seen).
Proof.
  intros Hinv. unfold sortedItems.
  assert (H : Forall (fun k => is_Some (seen !! k)) (sortStrings (keysOf seen))).
  { apply Forall_forall. intros k Hk. apply keysOf_lookup.
    by rewrite <- (sortStrings_perm (keysOf seen)). }
  induction H as [|k ks [r Hr] _ IH]; [done|].
  cbn [omap list_omap]. rewrite Hr. cbn [map]. f_equal; [|exact IH].
  by destruct (Hinv k r Hr) as [-> _].
Qed.

Lemma resolvedItems_anchors names doc seen raw :
  seenInv names doc seen ->
  map anchorOf (resolvedItems seen raw) = sortStrings (keysOf seen).
Proof.
  intros Hinv. rewrite <- (sortedItems_anchors names doc seen Hinv).
  unfold resolvedItems. rewrite map_map. apply map_ext.
  intros r. unfold anchorOf. by rewrite resolve_Anchor.
Qed.



(** C3.  [AddBibliography] on a document tree of the data model.  Let
    [ns] and [is_] be the items of the normative and of the informative
    group that [CitationToBibliography] returns, and [lg] what it logs
    (decode failures only).  If the tree has no back-matter node, the call
    returns [false], leaves the tree as it is, and logs the missing
    back-matter diagnostic exactly when one of the groups is non-empty.  If
    the tree has a back-matter node, the call appends to the children of
    one such node: a wrapper holding the normative and then the informative
    group when both are non-empty, the one non-empty group itself when only
    one is, nothing when none is; it returns [true] exactly when one of the
    groups is non-empty. *)
Theorem AddBibliography_contract doc :
  wfDoc doc = true ->
  exists ns is_ lg,
    CitationToBibliography doc
    = Ok (bibliography CitationTypeNormative ns,
          bibliography CitationTypeInformative is_, lg)
    /\ (LogNoBackmatter ∉ lg)
    /\ (((forall q c, nodeAt q doc = Some c -> ~ isBackMatter c)
         /\ AddBibliography doc
            = Ok (doc, false,
                  lg ++ if bool_decide (ns <> [] \/ is_ <> [])
                        then [LogNoBackmatter] else []))
        \/ (exists p cs,
              nodeAt p doc = Some (Container (DocumentMatter DocumentMatterBack) cs)
              /\ AddBibliography doc
                 = Ok (replaceAt p
                         (Container (DocumentMatter DocumentMatterBack)
                            (cs ++ attached (bibliography CitationTypeNormative ns)
                                            (bibliography CitationTypeInformative is_)))
                         doc,
                       bool_decide (ns <> [] \/ is_ <> []), lg))).
Proof.
  intros Hwf. destruct (CitationToBibliography_total doc Hwf) as (seen & raw & _ & E).
  eexists _, _, _. split; [exact E|].
  split; [intros (a & e & ?)%resolveLog_entries; done|].
  match type of E with _ = Ok (bibliography _ ?ns, bibliography _ ?is_, _) =>
    assert (Hb : bool_decide (is_Some (bibliography CitationTypeNormative ns)
                              \/ is_Some (bibliography CitationTypeInformative is_))
                 = bool_decide (ns <> [] \/ is_ <> []))
      by (apply bool_decide_ext; by rewrite !bibliography_Some) end.
  rewrite <- Hb. exact (AddBibliography_spec doc _ _ _ E).
Qed.

(** C5.  Decode failure keeps the item.  For every collected citation [r]
    whose anchor, in lower case, has a raw reference block [rw] in the
    document that [xml.Unmarshal] rejects with [e]: the item of [r] is in
    the group of its kind (normative for Normative, informative for
    Suppressed and Informative), it carries [rw] itself as
    [ReferenceGroup] and no decoded [Reference], and the log names the
    anchor and [e].  Every other collected citation of one of these kinds
    is in its group as well, resolved on its own. *)
Theorem decode_failure_keeps_item doc :
  wfDoc doc = true ->
  exists seen raw ns is_ lg,
    collect doc = Ok (seen, raw)
    /\ CitationToBibliography doc
       = Ok (bibliography CitationTypeNormative ns,
             bibliography CitationTypeInformative is_, lg)
    /\ (forall k r rw e,
          seen !! k = Some r ->
          raw !! ToLower (anchorOf r) = Some rw ->
          xmlUnmarshal (elems rw) = inl e ->
          let item := mkItem (Anchor r) (Type_ r) None (Some rw) in
          Leaf (ReferenceBlock rw) ∈ preorder doc
          /\ (Type_ r = CitationTypeNormative -> item ∈ ns)
          /\ (Type_ r = CitationTypeSuppressed \/ Type_ r = CitationTypeInformative ->
              item ∈ is_)
          /\ LogUnmarshalFailed (Anchor r) e ∈ lg)
    /\ (forall k r, seen !! k = Some r ->
          (isNormative r -> (resolve raw r).1 ∈ ns)
          /\ (isInformative r -> (resolve raw r).1 ∈ is_)).
Proof.
  intros Hwf. destruct (CitationToBibliography_total doc Hwf) as (seen & raw & Ec & E).
  destruct (collect_inv doc seen raw Ec) as (names & _ & Hseen & Hraw).
  exists seen, raw. eexists _, _, _. split; [done|]. split; [exact E|].
  assert (Hall : forall k r, seen !! k = Some r ->
            (isNormative r -> (resolve raw r).1 ∈ filter isNormative (resolvedItems seen raw))
            /\ (isInformative r -> (resolve raw r).1 ∈ filter isInformative (resolvedItems seen raw))).
  { intros k r Hk. split; intros Ht; apply list_elem_of_filter;
      (split; [unfold isNormative, isInformative in *; by rewrite resolve_Type|]);
      apply resolvedItems_elem; eauto. }
  split; [|exact Hall].
  intros k r rw e Hk Hrw He item.
  destruct (Hseen k r Hk) as (_ & HR & _).
  assert (Hres : resolve raw r = (item, [LogUnmarshalFailed (Anchor r) e])).
  { unfold resolve. fold (anchorOf r). rewrite Hrw, He. unfold item. by rewrite HR. }
  destruct (Hall k r Hk) as [HN HI]. rewrite Hres in HN, HI.
  split; [by destruct (Hraw _ _ Hrw) as (a & Ha & _)|].
  split; [exact HN|]. split; [exact HI|].
  apply (resolveLog_elem seen raw k r _ Hk). rewrite Hres. by left.
Qed.

(** C6.  Determinism.  Whatever the order in which the run visits the keys
    of [seen], [CitationToBibliography] and [AddBibliography] return the
    same result, and within each group the anchors of the items ascend in
    the byte-wise lexicographic order; each anchor is a key of [seen], in
    the spelling in which it was collected. *)
Theorem CitationToBibliography_deterministic order doc :
  (forall l, order l ≡ₚ l) ->
  wfDoc doc = true ->
  exists ns is_ lg,
    CitationToBibliographyIn order doc
    = Ok (bibliography CitationTypeNormative ns,
          bibliography CitationTypeInformative is_, lg)
    /\ CitationToBibliographyIn order doc = CitationToBibliography doc
    /\ AddBibliographyIn order doc = AddBibliography doc
    /\ StronglySorted strLe (map anchorOf ns)
    /\ StronglySorted strLe (map anchorOf is_)
    /\ exists seen raw,
         collect doc = Ok (seen, raw)
         /\ forall r, r ∈ ns ++ is_ -> is_Some (seen !! anchorOf r).
Proof.
  intros Hord Hwf.
  destruct (CitationToBibliography_total doc Hwf) as (seen & raw & Ec & E).
  destruct (collect_inv doc seen raw Ec) as (names & _ & Hseen & _).
  assert (Heq : CitationToBibliographyIn order doc = CitationToBibliography doc)
    by (by rewrite CitationToBibliography_spec, (CitationToBibliographyIn_spec order)).
  eexists _, _, _. split; [rewrite Heq; exact E|]. split; [exact Heq|].
  split; [unfold AddBibliography, AddBibliographyIn; by rewrite Heq|].
  split; [|split]; try (apply StronglySorted_map_filter;
    rewrite (resolvedItems_anchors names doc seen raw Hseen); apply sortStrings_sorted).
  exists seen, raw. split; [done|]. intros r Hr.
  assert (Hin : r ∈ resolvedItems seen raw).
  { apply elem_of_app in Hr as [Hr|Hr]; by apply list_elem_of_filter in Hr as [_ Hr]. }
  apply resolvedItems_elem in Hin as (k & r0 & Hk & ->).
  destruct (Hseen k r0 Hk) as (Ha & _). unfold anchorOf in *.
  rewrite resolve_Anchor, Ha. eauto.
Qed.

(** C7, as amended.  Every item of the normative group has kind Normative
    and every item of the informative group kind Suppressed or Informative;
    a collected citation of kind Normative is in the normative group and
    not in the informative one, a collected citation of kind Suppressed or
    Informative is in the informative group and not in the normative one;
    the item keeps the kind of the citation as collected, so Suppressed
    stays Suppressed (the collapsed kind is that of the group node, see
    [bibliography]). *)
Theorem classification_by_kind doc :
  wfDoc doc = true ->
  exists seen raw ns is_ lg,
    collect doc = Ok (seen, raw)
    /\ CitationToBibliography doc
       = Ok (bibliography CitationTypeNormative ns,
             bibliography CitationTypeInformative is_, lg)
    /\ (forall r, r ∈ ns -> Type_ r = CitationTypeNormative)
    /\ (forall r, r ∈ is_ ->
          Type_ r = CitationTypeSuppressed \/ Type_ r = CitationTypeInformative)
    /\ (forall k r, seen !! k = Some r ->
          let item := (resolve raw r).1 in
          Type_ item = Type_ r
          /\ (Type_ r = CitationTypeNormative -> item ∈ ns /\ item ∉ is_)
          /\ (Type_ r = CitationTypeSuppressed \/ Type_ r = CitationTypeInformative ->
              item ∈ is_ /\ item ∉ ns)).
Proof.
  intros Hwf. destruct (CitationToBibliography_total doc Hwf) as (seen & raw & Ec & E).
  exists seen, raw. eexists _, _, _. split; [done|]. split; [exact E|].
  split; [intros r Hr; by apply list_elem_of_filter in Hr as [Hr _]|].
  split; [intros r Hr; by apply list_elem_of_filter in Hr as [Hr _]|].
  intros k r Hk item. pose proof (resolve_Type raw r) as HT. fold item in HT.
  split; [done|].
  assert (Hin : item ∈ resolvedItems seen raw) by (apply resolvedItems_elem; eauto).
  split; intros Ht.
  - split; [apply list_elem_of_filter; split; [|done]; unfold isNormative; congruence|].
    intros [Hi _]%list_elem_of_filter. unfold isInformative in Hi.
    rewrite HT, Ht in Hi. by destruct Hi.
  - split; [apply list_elem_of_filter; split; [|done]; unfold isInformative; by rewrite HT|].
    intros [Hn _]%list_elem_of_filter. unfold isNormative in Hn.
    rewrite HT in Hn. rewrite Hn in Ht. by destruct Ht.
Qed.

(** C8.  Self-reference suppression.  A destination that
    [strings.EqualFold] identifies with the full name of an author or of a
    contact of the first title node of the document is the anchor of no
    item of either group. *)
Theorem self_reference_suppressed doc :
  wfDoc doc = true ->
  exists ns is_ lg,
    CitationToBibliography doc
    = Ok (bibliography CitationTypeNormative ns,
          bibliography CitationTypeInformative is_, lg)
    /\ forall t d name destination,
         firstTitle doc = Some t ->
         TitleData_ t = Some d ->
         name ∈ map Fullname (Authors d) ++ map ContactFullname (Contacts d) ->
         EqualFold name destination = true ->
         forall r, r ∈ ns ++ is_ -> anchorOf r <> destination.
Proof.
  intros Hwf. destruct (CitationToBibliography_total doc Hwf) as (seen & raw & Ec & E).
  destruct (collect_inv doc seen raw Ec) as (names & Hnames & Hseen & _).
  eexists _, _, _. split; [exact E|].
  intros t d name dest Ht Hd Hname Hfold r Hr Hanchor.
  rewrite WalkFunc_visitTitle, Ht in Hnames. simpl in Hnames. rewrite Hd in Hnames.
  simplify_eq.
  assert (Hin : r ∈ resolvedItems seen raw).
  { apply elem_of_app in Hr as [Hr|Hr]; by apply list_elem_of_filter in Hr as [_ Hr]. }
  apply resolvedItems_elem in Hin as (k & r0 & Hk & ->).
  destruct (Hseen k r0 Hk) as (Ha & _ & _ & Hno & _).
  unfold anchorOf in *. rewrite resolve_Anchor in Hfold.
  rewrite Ha in Hfold. rewrite (Hno name Hname) in Hfold. done.
Qed.

(** C9, as amended.  For a span [ref] that [IsReference] recognizes, the
    literal of the reference block made by [ReferenceHook] is
    [fmtReference ref], and the hook consumes [len ref] bytes.
    [fmtReference] returns the span unchanged when decoding fails, the
    re-encoded record when decoding and encoding succeed, and the span
    unchanged when encoding fails. *)
Theorem ReferenceHook_literal data ref :
  IsReference data = Ok (Some ref) ->
  ReferenceHook data
  = Ok (Some (Leaf (ReferenceBlock (fmtReference ref))), None, len ref)
  /\ (forall e, xmlUnmarshal (elems ref) = inl e -> fmtReference ref = ref)
  /\ (forall x out, xmlUnmarshal (elems ref) = inr x ->
        xmlMarshalIndent x (lit "") (lit "   ") = inr out -> fmtReference ref = out)
  /\ (forall x e, xmlUnmarshal (elems ref) = inr x ->
        xmlMarshalIndent x (lit "") (lit "   ") = inl e -> fmtReference ref = ref).
Proof.
  intros H. unfold ReferenceHook. rewrite H. split; [done|].
  unfold fmtReference.
  split; [by intros e ->|]. split; [by intros x out -> ->|by intros x e -> ->].
Qed.

Lemma slice_middle {A} (l1 mid l2 : list A) :
  firstn (length l1 + length mid - length l1)
         (skipn (length l1) (l1 ++ mid ++ l2)) = mid.
Proof.
  replace (length l1 + length mid - length l1)%nat with (length mid) by lia.
  induction l1 as [|a l1 IH]; [|exact IH].
  simpl. clear. induction mid as [|b mid IH]; [done|]. simpl. f_equal. exact IH.
Qed.

(** C10.  The delimiter of the anchor value.  Let the span start with a
    reference opener and let [q] be the byte right after the first
    [anchor=].  If [q] occurs again, [anchorFromReference] returns the
    bytes strictly between [q] and its next occurrence; if it does not, the
    function returns none.  [q] is any byte. *)
Theorem anchorFromReference_delimiter data pre q rest :
  hasOpener (elems data) ->
  elems data = pre ++ lit "anchor=" ++ q :: rest ->
  indexOpt (elems data) (lit "anchor=") = Some (length pre) ->
  (forall mid post, rest = mid ++ q :: post -> q ∉ mid ->
     exists a, anchorFromReference data = Ok (Some a) /\ elems a = mid)
  /\ (q ∉ rest -> anchorFromReference data = Ok None).
Proof.
  intros Hop He Hi. rewrite (anchorFromReference_at data pre q rest Hop He Hi).
  assert (Hlen : len data = Z.of_nat (length pre) + 8 + Z.of_nat (length rest)).
  { unfold len. rewrite He, !length_app. simpl. lia. }
  split.
  - intros mid post -> Hq. cbn zeta. rewrite scanQuote_found by done.
    rewrite length_app in Hlen. simpl in Hlen.
    destruct (_ >=? len data) eqn:E; [lia|].
    set (l1 := pre ++ lit "anchor=" ++ [q]).
    assert (He' : elems data = l1 ++ mid ++ q :: post)
      by (rewrite He; unfold l1; by rewrite <- !app_assoc).
    assert (Hl1 : length l1 = (length pre + 8)%nat)
      by (unfold l1; rewrite !length_app; simpl; lia).
    replace (Z.of_nat (length pre) + 8) with (Z.of_nat (length l1)) by lia.
    replace (Z.of_nat (length l1) + Z.of_nat (length mid))
      with (Z.of_nat (length l1 + length mid)) by lia.
    rewrite reslice_ok by (rewrite ?He', ?length_app; lia).
    eexists. split; [done|]. cbn [elems]. rewrite He'. apply slice_middle.
  - intros Hq. cbn zeta. rewrite scanQuote_missing by done.
    destruct (_ >=? len data) eqn:E; [done|lia].
Qed.

End Claims.

(** ** Closed instances *)

Section Examples.
#[local] Existing Instance exampleLib.

Example collect_docFull : collect docFull = Ok (seenFull, rawFull).
Proof. reflexivity. Qed.

Example CitationToBibliography_docFull :
  CitationToBibliography docFull
  = Ok (bibliography CitationTypeNormative
          [mkItem (ofBytes (lit "RFC2119")) CitationTypeNormative None None],
        bibliography CitationTypeInformative
          [mkItem (ofBytes (lit "BadRef")) CitationTypeInformative None (Some badLiteral)],
        [LogUnmarshalFailed (ofBytes (lit "BadRef")) tt]).
Proof. reflexivity. Qed.

Example AddBibliography_docFull :
  exists doc',
    AddBibliography docFull
    = Ok (doc', true, [LogUnmarshalFailed (ofBytes (lit "BadRef")) tt])
    /\ nodeAt [3%nat] doc'
       = Some (Container (DocumentMatter DocumentMatterBack)
                 [Container BibliographyWrapper
                    [Container (Bibliography CitationTypeNormative)
                       [itemNode (mkItem (ofBytes (lit "RFC2119"))
                                    CitationTypeNormative None None)];
                     Container (Bibliography CitationTypeInformative)
                       [itemNode (mkItem (ofBytes (lit "BadRef"))
                                    CitationTypeInformative None (Some badLiteral))]]]).
Proof. eexists. split; reflexivity. Qed.

Lemma AddBibliography_contract_witness :
  wfDoc docFull = true
  /\ exists doc' lg, AddBibliography docFull = Ok (doc', true, lg).
Proof.
  split; [reflexivity|].
  destruct (AddBibliography_contract docFull eq_refl)
    as (ns & is_ & lg & HB & _ & [[Hno _]|(p & cs & _ & HA)]).
  - exfalso. apply (Hno [3%nat] backMatter); [reflexivity|]. by exists [].
  - assert (Hns : ns <> []).
    { intros ->. pose proof (eq_trans (eq_sym HB) CitationToBibliography_docFull).
      discriminate. }
    rewrite bool_decide_eq_true_2 in HA by (by left). eauto.
Defined.

Lemma decode_failure_keeps_item_witness :
  wfDoc docFull = true
  /\ exists ns is_ lg,
       CitationToBibliography docFull
       = Ok (bibliography CitationTypeNormative ns,
             bibliography CitationTypeInformative is_, lg)
       /\ mkItem (ofBytes (lit "BadRef")) CitationTypeInformative None (Some badLiteral)
          ∈ is_
       /\ LogUnmarshalFailed (ofBytes (lit "BadRef")) tt ∈ lg.
Proof.
  split; [reflexivity|].
  destruct (decode_failure_keeps_item docFull eq_refl)
    as (seen & raw & ns & is_ & lg & Hc & HB & H & _).
  exists ns, is_, lg. split; [exact HB|].
  pose proof (eq_trans (eq_sym Hc) collect_docFull) as E.
  injection E as -> ->.
  destruct (H (lit "BadRef")
              (mkItem (ofBytes (lit "BadRef")) CitationTypeInformative None None)
              badLiteral tt eq_refl eq_refl eq_refl) as (_ & _ & HI & HL).
  split; [apply HI; by right|exact HL].
Defined.

Lemma CitationToBibliography_deterministic_witness :
  (forall l : list bytes, reverse l ≡ₚ l)
  /\ wfDoc docFull = true
  /\ CitationToBibliographyIn reverse docFull = CitationToBibliography docFull.
Proof.
  split; [apply reverse_Permutation|]. split; [reflexivity|].
  destruct (CitationToBibliography_deterministic reverse docFull
              reverse_Permutation eq_refl) as (ns & is_ & lg & _ & H & _).
  exact H.
Defined.

Lemma classification_by_kind_witness :
  wfDoc docFull = true
  /\ exists ns is_ lg,
       CitationToBibliography docFull
       = Ok (bibliography CitationTypeNormative ns,
             bibliography CitationTypeInformative is_, lg)
       /\ mkItem (ofBytes (lit "RFC2119")) CitationTypeNormative None None ∈ ns
       /\ mkItem (ofBytes (lit "RFC2119")) CitationTypeNormative None None ∉ is_.
Proof.
  split; [reflexivity|].
  destruct (classification_by_kind docFull eq_refl)
    as (seen & raw & ns & is_ & lg & Hc & HB & _ & _ & H).
  exists ns, is_, lg. split; [exact HB|].
  pose proof (eq_trans (eq_sym Hc) collect_docFull) as E.
  injection E as -> ->.
  destruct (H (lit "RFC2119")
              (mkItem (ofBytes (lit "RFC2119")) CitationTypeNormative None None)
              eq_refl) as (_ & HN & _).
  exact (HN eq_refl).
Defined.

Lemma self_reference_suppressed_witness :
  wfDoc docFull = true
  /\ exists ns is_ lg,
       CitationToBibliography docFull
       = Ok (bibliography CitationTypeNormative ns,
             bibliography CitationTypeInformative is_, lg)
       /\ forall r, r ∈ ns ++ is_ -> anchorOf r <> lit "jane doe".
Proof.
  split; [reflexivity|].
  destruct (self_reference_suppressed docFull eq_refl) as (ns & is_ & lg & HB & H).
  exists ns, is_, lg. split; [exact HB|].
  apply (H _ _ (lit "Jane Doe") (lit "jane doe") eq_refl eq_refl);
    [by left|reflexivity].
Defined.

Lemma ReferenceHook_literal_witness :
  let data := ofBytes (lit "<reference anchor='BadRef'>not-xml</reference>tail") in
  let ref := mkSlice (lit "<reference anchor='BadRef'>not-xml</reference>") (lit "tail") in
  IsReference data = Ok (Some ref)
  /\ ReferenceHook data
     = Ok (Some (Leaf (ReferenceBlock (fmtReference ref))), None, len ref).
Proof.
  intros data ref. split; [reflexivity|].
  exact (proj1 (ReferenceHook_literal data ref eq_refl)).
Defined.

Lemma anchorFromReference_delimiter_witness :
  exists a,
    anchorFromReference (ofBytes (lit "<reference anchor=|abc| x")) = Ok (Some a)
    /\ elems a = lit "abc".
Proof.
  refine (proj1 (anchorFromReference_delimiter
                   (ofBytes (lit "<reference anchor=|abc| x"))
                   (lit "<reference ") "|"%char (lit "abc| x")
                   (or_introl eq_refl) eq_refl eq_refl)
                (lit "abc") (lit " x") eq_refl _).
  intros H. repeat (apply elem_of_cons in H as [H|H]; [discriminate|]).
  by apply elem_of_nil in H.
Defined.

(** C7, counterexample: the item of a suppressed citation is in the
    informative group with kind Suppressed, which is neither Normative nor
    Informative. *)
Lemma item_kind_not_collapsed :
  exists r,
    CitationToBibliography docSuppressed
    = Ok (None, bibliography CitationTypeInformative [r], [])
    /\ Type_ r = CitationTypeSuppressed
    /\ Type_ r <> CitationTypeNormative /\ Type_ r <> CitationTypeInformative.
Proof.
  exists (mkItem (ofBytes (lit "S")) CitationTypeSuppressed None None).
  split; [reflexivity|]. split; [reflexivity|]. split; discriminate.
Qed.

(** C9, counterexample: on a well-formed reference the literal of the node
    is the re-encoded text, not the source text of the declaration. *)
Lemma ReferenceHook_literal_not_source :
  exists literal,
    IsReference (ofBytes exampleSource) = Ok (Some (ofBytes exampleSource))
    /\ ReferenceHook (ofBytes exampleSource)
       = Ok (Some (Leaf (ReferenceBlock literal)), None, 34)
    /\ elems literal <> exampleSource.
Proof.
  eexists. split; [reflexivity|]. split; [reflexivity|]. discriminate.
Qed.

(** C1, on the code: [X] cited first and [x] second give two items, one in
    each group; the second is not dropped.  The test for a duplicate looks
    up the lower-cased destination among keys that are stored
    case-preserved. *)
Theorem CitationToBibliography_case_duplicate :
  CitationToBibliography docCase
  = Ok (bibliography CitationTypeNormative
          [mkItem (ofBytes (lit "X")) CitationTypeNormative None None],
        bibliography CitationTypeInformative
          [mkItem (ofBytes (lit "x")) CitationTypeInformative None None],
        []).
Proof. reflexivity. Qed.

(** The same anchor cited twice in the same spelling, with an upper-case
    letter: the later citation replaces the earlier one, so the last kind
    wins. *)
Example CitationToBibliography_repeat_last_kind :
  CitationToBibliography docRepeat
  = Ok (None,
        bibliography CitationTypeInformative
          [mkItem (ofBytes (lit "X")) CitationTypeInformative None None],
        []).
Proof. reflexivity. Qed.

(** C2, on the code: a span with an opener and no closing marker is
    reported as matched, with the first 23 bytes as its span: [bytes.Index]
    returns -1, which passes both tests on [end]. *)
Theorem IsReference_unterminated :
  let data := ofBytes (lit "<reference anchor='a'>unterminated text") in
  indexOpt (elems data) (lit "</reference>") = None
  /\ IsReference data
     = Ok (Some (mkSlice (lit "<reference anchor='a'>u") (lit "nterminated text"))).
Proof. split; reflexivity. Qed.

(** C4, on the code: on the eleven bytes of the opener alone,
    [data[len(typ):]] is out of range and [IsReference], hence
    [ReferenceHook], panics. *)
Theorem IsReference_short_input_panics :
  IsReference (ofBytes (lit "<reference ")) = Panic SliceBoundsOutOfRange
  /\ ReferenceHook (ofBytes (lit "<reference ")) = Panic SliceBoundsOutOfRange.
Proof. split; reflexivity. Qed.

Example IsReference_ex1 :
  IsReference (ofBytes (lit "<reference anchor='a'>x</reference>tail"))
  = Ok (Some (mkSlice (lit "<reference anchor='a'>x</reference>") (lit "tail"))).
Proof. reflexivity. Qed.

(** The closing marker right after the byte that follows the opener:
    [end == 0], not matched. *)
Example IsReference_ex2 :
  IsReference (ofBytes (lit "<reference x</reference>")) = Ok None.
Proof. reflexivity. Qed.

(** No closing marker and fewer than 23 bytes of capacity: [data[:23]] is
    out of range. *)
Example IsReference_ex3 :
  IsReference (ofBytes (lit "<reference x")) = Panic SliceBoundsOutOfRange.
Proof. reflexivity. Qed.

Example anchorFromReference_ex1 :
  anchorFromReference (ofBytes (lit "<reference anchor='CBR03' target=''>"))
  = Ok (Some (mkSlice (lit "CBR03") (lit "' target=''>"))).
Proof. reflexivity. Qed.

(** [x] cited first and [X] second: here the second is dropped. *)
Example CitationToBibliography_lower_first :
  CitationToBibliography docCaseLower
  = Ok (bibliography CitationTypeNormative
          [mkItem (ofBytes (lit "x")) CitationTypeNormative None None],
        None, []).
Proof. reflexivity. Qed.

(** A citation of the kind [CitationTypeNone] is placed in no group. *)
Example CitationToBibliography_kind_none :
  CitationToBibliography (cite "N" CitationTypeNone) = Ok (None, None, []).
Proof. reflexivity. Qed.

(** A title node without title data. *)
Example authContFromTitle_nil_data :
  authContFromTitle (Some {| TitleData_ := None |}) = Panic NilDereference.
Proof. reflexivity. Qed.

(** A citation with fewer kinds than destinations. *)
Example CitationToBibliography_missing_kind :
  CitationToBibliography (Leaf (Citation [ofBytes (lit "A")] []))
  = Panic IndexOutOfRange.
Proof. reflexivity. Qed.

End Examples.

(** * Further properties *)

(** ** The lexer and the anchor extractor, continued *)

Lemma HasPrefix_split prefix : forall s,
  HasPrefix s prefix = true -> exists t, s = prefix ++ t.
Proof.
  induction prefix as [|p prefix IH]; intros s; simpl; [by exists s|].
  destruct s as [|c s]; [done|]. intros [Hc H]%andb_true_iff.
  apply Ascii.eqb_eq in Hc as ->. destruct (IH s H) as [t ->]. by exists t.
Qed.

Lemma indexOpt_split sep : forall s i,
  indexOpt s sep = Some i ->
  exists pre post, s = pre ++ sep ++ post /\ length pre = i.
Proof.
  induction s as [|c s IH]; intros i; cbn [indexOpt].
  - destruct (HasPrefix [] sep) eqn:E; [|done]. intros [= <-].
    apply HasPrefix_split in E as [t ->]. by exists [], t.
  - destruct (HasPrefix (c :: s) sep) eqn:E.
    + intros [= <-]. apply HasPrefix_split in E as [t ->]. by exists [], t.
    + destruct (indexOpt s sep) as [j|]; [|done]. simpl. intros [= <-].
      destruct (IH j eq_refl) as (pre & post & -> & <-).
      by exists (c :: pre), post.
Qed.

Lemma reslice_inv s lo hi r :
  reslice s lo hi = Ok r ->
  0 <= lo <= hi /\ hi <= cap s
  /\ elems r = firstn (Z.to_nat (hi - lo)) (skipn (Z.to_nat lo) (elems s ++ spare s))
  /\ spare r = skipn (Z.to_nat hi) (elems s ++ spare s).
Proof.
  unfold reslice.
  destruct (0 <=? lo) eqn:E1; [|done]. destruct (lo <=? hi) eqn:E2; [|done].
  destruct (hi <=? cap s) eqn:E3; [|done]. simpl. intros [= <-]. simpl.
  repeat split; lia.
Qed.

Lemma sliceFrom_elems s lo r :
  sliceFrom s lo = Ok r -> 0 <= lo <= len s /\ elems r = skipn (Z.to_nat lo) (elems s).
Proof.
  unfold sliceFrom. intros (H1 & _ & -> & _)%reslice_inv. split; [done|].
  unfold len in *. rewrite skipn_app, firstn_app, length_skipn.
  replace (Z.to_nat (Z.of_nat (length (elems s)) - lo)
           - (length (elems s) - Z.to_nat lo))%nat with 0%nat by lia.
  rewrite firstn_O, app_nil_r. apply firstn_all2. rewrite length_skipn. lia.
Qed.

Lemma IsReference_opener data typ :
  closerOf (elems data) typ ->
  IsReference data =
    rest ← sliceFrom data (lenB typ);
    let end_ := Index (elems rest) typ in
    if (end_ >? len data) || (end_ =? 0) then Ok None
    else span ← sliceTo data (end_ + 2 * lenB typ); Ok (Some span).
Proof.
  intros [[H ->]|[H ->]]; unfold IsReference; rewrite H.
  - apply HasPrefix_split in H as [t ->]. reflexivity.
  - reflexivity.
Qed.

Lemma IsReference_no_opener data :
  HasPrefix (elems data) (lit "<reference ") = false ->
  HasPrefix (elems data) (lit "<referencegroup ") = false ->
  IsReference data = Ok None.
Proof. intros H1 H2. unfold IsReference. by rewrite H1, H2. Qed.

Lemma closerOf_cases b :
  (exists typ, closerOf b typ /\ (length typ = 12 \/ length typ = 17)%nat)
  \/ (HasPrefix b (lit "<reference ") = false
      /\ HasPrefix b (lit "<referencegroup ") = false).
Proof.
  destruct (HasPrefix b (lit "<reference ")) eqn:E1.
  { left. exists (lit "</reference>"). split; [by left|by left]. }
  destruct (HasPrefix b (lit "<referencegroup ")) eqn:E2.
  { left. exists (lit "</referencegroup>"). split; [by right|by right]. }
  by right.
Qed.

Lemma Index_lower s sep : -1 <= Index s sep.
Proof. unfold Index. destruct (indexOpt s sep); lia. Qed.

Lemma HasPrefix_length sep : forall l,
  HasPrefix l sep = true -> (length sep <= length l)%nat.
Proof.
  intros l [t ->]%HasPrefix_split. rewrite length_app. lia.
Qed.

(** A recognized span starts at the first byte of the input, lies in its
    backing array and is at least as long as the shorter closing marker
    and the shorter opener together. *)
Lemma IsReference_inv data span :
  IsReference data = Ok (Some span) ->
  hasOpener (elems data)
  /\ elems span ++ spare span = elems data ++ spare data
  /\ 23 <= len span <= cap data.
Proof.
  intros H. destruct (closerOf_cases (elems data)) as [(typ & Hc & Hlen)|[H1 H2]].
  2:{ by rewrite IsReference_no_opener in H. }
  split; [destruct Hc as [[? _]|[? _]]; [by left|by right]|].
  rewrite (IsReference_opener data typ Hc) in H.
  destruct (sliceFrom data (lenB typ)) as [rest|] eqn:Er; [|done].
  cbn [mbind result_bind] in H. cbv zeta in H.
  pose proof (Index_lower (elems rest) typ) as Hi.
  destruct (_ || _); [done|].
  destruct (sliceTo data _) as [sp|] eqn:Es; [|done].
  cbn [mbind result_bind] in H. simplify_eq.
  apply reslice_inv in Es as (Hlo & Hhi & He & Hs).
  rewrite He, Hs, Z.sub_0_r. change (Z.to_nat 0) with 0%nat. cbn [skipn].
  split; [apply firstn_skipn|].
  unfold len. rewrite He, Z.sub_0_r.
  rewrite length_firstn, length_skipn, length_app. unfold cap, lenB in *. lia.
Qed.

Lemma skipn_two {A} (a b c : list A) :
  skipn (length a + length b) (a ++ b ++ c) = c.
Proof.
  induction a as [|x a IH]; [|exact IH]. simpl.
  induction b as [|y b IH]; [done|exact IH].
Qed.

(** X1.  The span that [IsReference] recognizes.  Let the input start with
    a reference opener, let [typ] be the closing marker of that opener, and
    let the first occurrence of [typ] in the input after its first
    [len typ] bytes begin [e] bytes after them.  If [e] is zero, the input
    is not a reference.  Otherwise it is one, and the span is the input up
    to and including that first closing marker; what follows the marker is
    no part of the span and stays in its spare capacity. *)
Theorem IsReference_first_closer data typ e :
  closerOf (elems data) typ ->
  indexOpt (skipn (length typ) (elems data)) typ = Some e ->
  (e = 0%nat -> IsReference data = Ok None)
  /\ (e <> 0%nat ->
      exists span tail_,
        IsReference data = Ok (Some span)
        /\ elems span = firstn (length typ + e) (elems data) ++ typ
        /\ elems data = elems span ++ tail_
        /\ spare span = tail_ ++ spare data).
Proof.
  intros Hc Hi. rewrite (IsReference_opener data typ Hc).
  assert (Hlen : (length typ + e + length typ <= length (elems data))%nat).
  { destruct (indexOpt_split _ _ _ Hi) as (pre & post & Hs & Hp).
    apply (f_equal (@length ascii)) in Hs.
    rewrite length_skipn, !length_app in Hs.
    assert (length typ <> 0)%nat by (destruct Hc as [[_ ->]|[_ ->]]; done). lia. }
  destruct (reslice_total data (lenB typ) (len data)) as [rest Er];
    [unfold lenB, len; lia|lia|].
  fold (sliceFrom data (lenB typ)) in Er. rewrite Er.
  apply sliceFrom_elems in Er as [_ Er]. unfold lenB in Er. rewrite Nat2Z.id in Er.
  cbn [mbind result_bind]. cbv zeta. unfold Index. rewrite Er, Hi.
  split.
  - intros ->. by rewrite orb_true_r.
  - intros He. unfold len, lenB.
    destruct (_ >? _) eqn:E1; [lia|]. destruct (Z.of_nat e =? 0) eqn:E2; [lia|].
    cbn [orb]. unfold sliceTo.
    replace (Z.of_nat e + 2 * Z.of_nat (length typ))
      with (Z.of_nat (length typ + e + length typ)) by lia.
    rewrite (reslice_ok data 0 _) by lia. cbn [mbind result_bind].
    rewrite Nat.sub_0_r. cbn [skipn].
    destruct (indexOpt_split _ _ _ Hi) as (pre & post & Hs & Hp).
    assert (Hd : elems data = (firstn (length typ) (elems data) ++ pre) ++ typ ++ post).
    { rewrite <- app_assoc, <- Hs. symmetry. apply firstn_skipn. }
    assert (Hl : length (firstn (length typ) (elems data) ++ pre) = (length typ + e)%nat).
    { rewrite length_app, length_firstn. lia. }
    set (front := firstn (length typ) (elems data) ++ pre) in *.
    assert (Hf : firstn (length typ + e) (elems data) = front).
    { rewrite Hd, <- Hl. by rewrite firstn_app, Nat.sub_diag, firstn_O, app_nil_r, firstn_all. }
    assert (Hspan : firstn (length typ + e + length typ) (elems data) = front ++ typ).
    { rewrite Hd at 1. rewrite app_assoc.
      replace (length typ + e + length typ)%nat with (length (front ++ typ))
        by (rewrite length_app; lia).
      by rewrite firstn_app, Nat.sub_diag, firstn_O, app_nil_r, firstn_all. }
    eexists _, post. split; [reflexivity|]. cbn [elems spare].
    change (drop 0 (elems data)) with (elems data).
    rewrite Hf, Hspan. split; [done|]. split; [by rewrite <- app_assoc|].
    rewrite Hd, <- Hl, <- !app_assoc. apply skipn_two.
Qed.

Section Hook.
Context {L : GoLib}.

(** X2.  What [ReferenceHook] returns.  The second result, the remaining
    input, is always nil.  Either [IsReference] rejects the input, the node
    is nil and no byte is consumed; or the node is a reference block whose
    literal is [fmtReference] of the span that [IsReference] found, and the
    count of consumed bytes is the length of that span.  In the second case
    the input starts with a reference opener, the span starts at the first
    byte of the input, and the count is at least 23 and at most the
    capacity of the input, which may exceed its length. *)
Theorem ReferenceHook_contract data node rest n :
  ReferenceHook data = Ok (node, rest, n) ->
  rest = None
  /\ ((IsReference data = Ok None /\ node = None /\ n = 0)
      \/ (exists span,
            IsReference data = Ok (Some span)
            /\ node = Some (Leaf (ReferenceBlock (fmtReference span)))
            /\ n = len span
            /\ hasOpener (elems data)
            /\ elems span ++ spare span = elems data ++ spare data
            /\ 23 <= n <= cap data)).
Proof.
  unfold ReferenceHook. destruct (IsReference data) as [[span|]|] eqn:E; [| |done];
    cbn [mbind result_bind]; intros; simplify_eq; (split; [done|]).
  - right. exists span. apply IsReference_inv in E as (Hop & Hpre & Hn). done.
  - by left.
Qed.

End Hook.

Lemma scanQuote_cases rest q i :
  (exists mid post, rest = mid ++ q :: post /\ (q ∉ mid)
                    /\ scanQuote rest q i = i + Z.of_nat (length mid))
  \/ ((q ∉ rest) /\ scanQuote rest q i = i + Z.of_nat (length rest)).
Proof.
  revert i. induction rest as [|c rest IH]; intros i; simpl.
  - right. split; [apply not_elem_of_nil|lia].
  - destruct (Ascii.eqb_spec c q) as [->|Hc].
    + left. exists [], rest. split; [done|]. split; [apply not_elem_of_nil|simpl; lia].
    + destruct (IH (i + 1)) as [(mid & post & -> & Hq & E)|[Hq E]].
      * left. exists (c :: mid), post. split; [done|].
        split; [apply not_elem_of_cons; split; [congruence|done]|].
        rewrite E. simpl. lia.
      * right. split; [apply not_elem_of_cons; split; [congruence|done]|].
        rewrite E. simpl. lia.
Qed.

(** X3.  [anchorFromReference] returns on every input, and an anchor it
    returns is read off the input: the input starts with a reference
    opener, and right after its first [anchor=] come a byte [q], the
    anchor, and [q] again; the anchor does not contain [q]. *)
Theorem anchorFromReference_sound data :
  anchorFromReference data = Ok None
  \/ exists a pre q post,
       anchorFromReference data = Ok (Some a)
       /\ hasOpener (elems data)
       /\ elems data = pre ++ lit "anchor=" ++ q :: elems a ++ q :: post
       /\ indexOpt (elems data) (lit "anchor=") = Some (length pre)
       /\ q ∉ elems a.
Proof.
  destruct (HasPrefix (elems data) (lit "<reference ")) eqn:E1;
    [|destruct (HasPrefix (elems data) (lit "<referencegroup ")) eqn:E2].
  3:{ left. unfold anchorFromReference. by rewrite E1, E2. }
  all: assert (Hop : hasOpener (elems data)) by (by (left + right)).
  all: clear E1; try clear E2.
  all: destruct (indexOpt (elems data) (lit "anchor=")) as [i|] eqn:Ei;
    [|left; unfold anchorFromReference, Index; rewrite Ei;
      by destruct (negb _ && negb _)].
  all: destruct (indexOpt_split _ _ _ Ei) as (pre & rest0 & He & <-).
  all: destruct rest0 as [|q rest].
  all: try (left; unfold anchorFromReference, Index; rewrite Ei;
            destruct (negb _ && negb _); [done|];
            destruct (_ <? 0) eqn:?; [done|];
            destruct (_ >=? len data) eqn:E; [done|];
            unfold len in E; rewrite He, !length_app in E; simpl in E; lia).
  all: rewrite (anchorFromReference_at data pre q rest Hop He Ei); cbv zeta.
  all: assert (Hlen : len data = Z.of_nat (length pre) + 8 + Z.of_nat (length rest))
         by (unfold len; rewrite He, !length_app; simpl; lia).
  all: destruct (scanQuote_cases rest q (Z.of_nat (length pre) + 8))
         as [(mid & post & -> & Hq & ->)|[Hq ->]].
  all: try (left; destruct (_ >=? len data) eqn:E; [done|lia]).
  all: right; rewrite length_app in Hlen; simpl in Hlen.
  all: destruct (_ >=? len data) eqn:E; [lia|].
  all: set (l1 := pre ++ lit "anchor=" ++ [q]).
  all: assert (He' : elems data = l1 ++ mid ++ q :: post)
         by (rewrite He; unfold l1; by rewrite <- !app_assoc).
  all: assert (Hl1 : length l1 = (length pre + 8)%nat)
         by (unfold l1; rewrite !length_app; simpl; lia).
  all: replace (Z.of_nat (length pre) + 8) with (Z.of_nat (length l1)) by lia.
  all: replace (Z.of_nat (length l1) + Z.of_nat (length mid))
         with (Z.of_nat (length l1 + length mid)) by lia.
  all: rewrite reslice_ok by (rewrite ?He', ?length_app; lia).
  all: assert (Hm : firstn (length l1 + length mid - length l1)
                     (skipn (length l1) (elems data)) = mid)
         by (rewrite He'; apply slice_middle).
  all: eexists _, pre, q, post; split; [reflexivity|]; cbn [elems]; rewrite Hm.
  all: split; [done|]; split; [exact He|]; split; [done|done].
Qed.

(** ** The back-matter locator, continued *)

Section BackMatterFirst.
Context {L : GoLib}.

Lemma Walk_visitBackMatter_first n : forall p m,
  (Walk visitBackMatter p n m = Ok (m, GoToNext)
   /\ forall q c, nodeAt q n = Some c -> ~ isBackMatter c)
  \/ (exists q c, Walk visitBackMatter p n m = Ok (Some (p ++ q), Terminate)
      /\ nodeAt q n = Some c /\ isBackMatter c
      /\ forall q' c', nodeAt q' n = Some c' -> isBackMatter c' ->
           q' = q \/ pathBefore q q').
Proof.
  induction n as [k|k cs IH] using Node_ind'; intros p m.
  - left. split; [by destruct k|].
    intros [|i q] c; simpl; [|done]. intros [= <-] [cs' ?]. done.
  - assert (Hdec : {k = DocumentMatter DocumentMatterBack}
                   + {k <> DocumentMatter DocumentMatterBack})
      by (destruct k as [[]| | |]; (by left) || (by right)).
    destruct Hdec as [->|Hk].
    { right. exists [], (Container (DocumentMatter DocumentMatterBack) cs).
      rewrite app_nil_r. split; [reflexivity|]. split; [done|].
      split; [by eexists|]. intros [|j q'] c' _ _; [by left|by right]. }
    assert (Hv : forall e m', visitBackMatter p (Container k cs) e m' = Ok (m', GoToNext)).
    { intros e m'. destruct k as [mat| | |]; try done. simpl.
      destruct (decide (mat = DocumentMatterBack)); [congruence|done]. }
    assert (HW : Walk visitBackMatter p (Container k cs) m =
                 '(s, status) ← WalkChildren visitBackMatter p cs 0%nat m;
                 match status with
                 | Terminate => Ok (s, Terminate)
                 | _ => Ok (s, GoToNext)
                 end).
    { rewrite Walk_container, Hv. simpl.
      destruct (WalkChildren visitBackMatter p cs 0 m) as [[s st]|]; [|done].
      simpl. unfold leave. rewrite Hv. by destruct st. }
    rewrite HW. clear HW Hv.
    assert (Hch : forall i,
      (WalkChildren visitBackMatter p cs i m = Ok (m, GoToNext)
       /\ forall j c q c', nth_error cs j = Some c -> nodeAt q c = Some c' -> ~ isBackMatter c')
      \/ (exists j c q c', nth_error cs j = Some c /\ nodeAt q c = Some c' /\ isBackMatter c'
          /\ WalkChildren visitBackMatter p cs i m = Ok (Some (p ++ (i + j)%nat :: q), Terminate)
          /\ forall j' d q' c'', nth_error cs j' = Some d -> nodeAt q' d = Some c'' ->
               isBackMatter c'' ->
               (j' :: q') = (j :: q) \/ pathBefore (j :: q) (j' :: q'))).
    { clear -IH. induction IH as [|c cs Hc _ IHcs]; intros i.
      - left. split; [done|]. intros [|j]; done.
      - rewrite WalkChildren_cons.
        destruct (Hc (p ++ [i]) m) as [[E Hno]|(q & c' & E & Hq & Hb & Hfirst)]; rewrite E; simpl.
        + destruct (IHcs (Datatypes.S i))
            as [[E' Hno']|(j & c1 & q & c' & Hj & Hq & Hb & E' & Hfirst)].
          * left. split; [done|]. intros [|j] c1 q c'; simpl; [|by apply Hno'].
            intros [= <-]. apply Hno.
          * right. exists (Datatypes.S j), c1, q, c'.
            split; [done|]. split; [done|]. split; [done|].
            split; [rewrite E'; by replace (i + Datatypes.S j)%nat
                                   with (Datatypes.S i + j)%nat by lia|].
            intros [|j'] d q' c''; simpl.
            -- intros [= <-] Hd Hbd. by destruct (Hno q' c'' Hd).
            -- intros Hd Hq' Hb'.
               destruct (Hfirst j' d q' c'' Hd Hq' Hb') as [[= -> ->]|[Hlt|[-> Hbef]]].
               ++ by left.
               ++ right. left. lia.
               ++ right. right. done.
        + right. exists 0%nat, c, q, c'.
          split; [done|]. split; [done|]. split; [done|].
          split; [by rewrite <- app_assoc, Nat.add_0_r|].
          intros [|j'] d q' c''; simpl.
          * intros [= <-] Hd Hbd. destruct (Hfirst q' c'' Hd Hbd) as [->|Hbef].
            -- by left.
            -- right. right. done.
          * intros _ _ _. right. left. lia. }
    destruct (Hch 0%nat) as [[E Hno]|(j & c1 & q & c' & Hj & Hq & Hb & E & Hfirst)];
      rewrite E; simpl.
    + left. split; [done|].
      intros [|j q] c; cbn [nodeAt].
      * intros [= <-] [cs' ?]. congruence.
      * intros Hq. destruct (nth_error cs j) as [c1|] eqn:Ej; [|done]. by apply (Hno j c1 q).
    + right. exists (j :: q), c'. split; [done|]. split; [cbn [nodeAt]; by rewrite Hj|].
      split; [done|].
      intros [|j' q'] c''; cbn [nodeAt].
      * intros [= <-] [cs' ?]. congruence.
      * destruct (nth_error cs j') as [d|] eqn:Ej'; [|done].
        intros Hq' Hb'. by apply (Hfirst j' d q' c'').
Qed.

Lemma NodeBackMatter_order doc :
  (NodeBackMatter doc = Ok None
   /\ forall q c, nodeAt q doc = Some c -> ~ isBackMatter c)
  \/ (exists p c,
        NodeBackMatter doc = Ok (Some p)
        /\ nodeAt p doc = Some c /\ isBackMatter c
        /\ forall q c', nodeAt q doc = Some c' -> isBackMatter c' ->
             q = p \/ pathBefore p q).
Proof.
  unfold NodeBackMatter, WalkFunc.
  destruct (Walk_visitBackMatter_first doc [] None) as [[E H]|(q & c & E & H)]; rewrite E.
  - by left.
  - right. by exists q, c.
Qed.

(** X4.  [NodeBackMatter] returns on every tree.  It returns nil when the
    tree has no back-matter node, and otherwise the first back-matter node
    in document order: every other one comes after it. *)
Theorem NodeBackMatter_first doc :
  (NodeBackMatter doc = Ok None
   /\ forall q c, nodeAt q doc = Some c -> ~ isBackMatter c)
  \/ (exists p c,
        NodeBackMatter doc = Ok (Some p)
        /\ nodeAt p doc = Some c /\ isBackMatter c
        /\ forall q c', nodeAt q doc = Some c' -> isBackMatter c' ->
             q = p \/ pathBefore p q).
Proof.
  unfold NodeBackMatter, WalkFunc.
  destruct (Walk_visitBackMatter_first doc [] None) as [[E H]|(q & c & E & H)]; rewrite E.
  - left. split; [reflexivity|exact H].
  - right. exists q, c. split; [reflexivity|exact H].
Qed.

End BackMatterFirst.

(** ** The second walk as one pass in document order *)

Section OnePass.
Context {L : GoLib}.

Lemma visitAll_app names l1 l2 st :
  visitAll names (l1 ++ l2) st = st' ← visitAll names l1 st; visitAll names l2 st'.
Proof.
  revert st. induction l1 as [|n l1 IH]; intros st; simpl; [done|].
  destruct (visitCitation names [] n true st) as [[st1 s]|]; [|done].
  simpl. apply IH.
Qed.

Lemma visitCitation_GoToNext names p n e st st' s :
  visitCitation names p n e st = Ok (st', s) -> s = GoToNext.
Proof.
  destruct st as [seen raw]. destruct n as [[ds ts|lit0|t|r|]|k cs]; simpl;
    try (intros; by simplify_eq).
  - destruct (destinations names ts ds 0 seen); simpl; intros; by simplify_eq.
  - destruct (anchorFromReference lit0) as [[a|]|]; simpl; intros; by simplify_eq.
Qed.

Lemma visitCitation_container names p k cs e st :
  visitCitation names p (Container k cs) e st = Ok (st, GoToNext).
Proof. by destruct st. Qed.

(** The second walk visits the nodes in document order. *)
Lemma Walk_visitCitation names n : forall p st,
  Walk (visitCitation names) p n st =
  st' ← visitAll names (preorder n) st; Ok (st', GoToNext).
Proof.
  induction n as [k|k cs IH] using Node_ind'; intros p st.
  - cbn [Walk preorder visitAll].
    change (visitCitation names p (Leaf k) true st)
      with (visitCitation names [] (Leaf k) true st).
    destruct (visitCitation names [] (Leaf k) true st) as [[st1 s]|] eqn:E; [|done].
    apply visitCitation_GoToNext in E as ->. done.
  - rewrite Walk_container, visitCitation_container. cbn [mbind result_bind].
    cbn [preorder visitAll]. rewrite visitCitation_container. cbn [mbind result_bind].
    assert (Hch : forall i st0,
      WalkChildren (visitCitation names) p cs i st0 =
      st' ← visitAll names (flat_map preorder cs) st0; Ok (st', GoToNext)).
    { clear -IH. induction IH as [|c cs Hc _ IHcs]; intros i st0; [done|].
      rewrite WalkChildren_cons, Hc. cbn [flat_map]. rewrite visitAll_app.
      destruct (visitAll names (preorder c) st0) as [st1|]; [|done].
      cbn [mbind result_bind]. apply IHcs. }
    rewrite Hch.
    destruct (visitAll names (flat_map preorder cs) st) as [st1|]; [|done].
    cbn [mbind result_bind]. unfold leave. by rewrite visitCitation_container.
Qed.

Lemma collect_visitAll doc :
  collect doc = names ← WalkFunc visitTitle doc []; visitAll names (preorder doc) (∅, ∅).
Proof.
  unfold collect. destruct (WalkFunc visitTitle doc []) as [names|]; [|done].
  cbn [mbind result_bind]. unfold WalkFunc. rewrite Walk_visitCitation.
  by destruct (visitAll names (preorder doc) (∅, ∅)).
Qed.

(** Keys of [seen] stay; a destination that is no name leaves its own
    spelling or its lower-case spelling as a key. *)
Lemma destinations_keys names types ds : forall i seen seen',
  destinations names types ds i seen = Ok seen' ->
  (forall k, is_Some (seen !! k) -> is_Some (seen' !! k))
  /\ (forall d, d ∈ ds ->
        existsb (fun name => EqualFold name (elems d)) names = false ->
        is_Some (seen' !! elems d) \/ is_Some (seen' !! ToLower (elems d))).
Proof.
  induction ds as [|d ds IH]; intros i seen seen'; simpl.
  - intros [= <-]. split; [done|]. intros d Hd. by apply elem_of_nil in Hd.
  - destruct (existsb _ names) eqn:En.
    { intros H. destruct (IH _ _ _ H) as [Hmono Hall]. split; [done|].
      intros d' [->|Hd']%elem_of_cons Hn; [congruence|by apply Hall]. }
    destruct (bool_decide (is_Some (seen !! ToLower (elems d)))) eqn:Eb.
    { apply bool_decide_eq_true in Eb.
      intros H. destruct (IH _ _ _ H) as [Hmono Hall]. split; [done|].
      intros d' [->|Hd']%elem_of_cons Hn; [right; by apply Hmono|by apply Hall]. }
    destruct (nth_error types i) as [t|]; [|done].
    intros H. destruct (IH _ _ _ H) as [Hmono Hall]. split.
    + intros k Hk. apply Hmono. rewrite lookup_insert. case_decide; [by eexists|done].
    + intros d' [->|Hd']%elem_of_cons Hn; [|by apply Hall].
      left. apply Hmono. rewrite lookup_insert_eq. by eexists.
Qed.

Lemma visitAll_keys names l : forall st st',
  visitAll names l st = Ok st' ->
  (forall k, is_Some (st.1 !! k) -> is_Some (st'.1 !! k))
  /\ (forall ds ts d, Leaf (Citation ds ts) ∈ l -> d ∈ ds ->
        existsb (fun name => EqualFold name (elems d)) names = false ->
        is_Some (st'.1 !! elems d) \/ is_Some (st'.1 !! ToLower (elems d))).
Proof.
  induction l as [|n l IH]; intros st st'; simpl.
  - intros [= <-]. split; [done|]. intros ds ts d H. by apply elem_of_nil in H.
  - destruct (visitCitation names [] n true st) as [[st1 s]|] eqn:E; [|done].
    cbn [mbind result_bind]. intros H. destruct (IH _ _ H) as [Hmono Hall].
    assert (Hstep : (forall k, is_Some (st.1 !! k) -> is_Some (st1.1 !! k))
              /\ (forall ds ts d, n = Leaf (Citation ds ts) -> d ∈ ds ->
                    existsb (fun name => EqualFold name (elems d)) names = false ->
                    is_Some (st1.1 !! elems d) \/ is_Some (st1.1 !! ToLower (elems d)))).
    { destruct st as [seen raw]. destruct n as [[ds ts|lit0|t|r|]|k cs];
        simpl in E; try (simplify_eq; split; [done|]; intros; simplify_eq).
      - destruct (destinations names ts ds 0 seen) as [s1|] eqn:Ed; [|done].
        simpl in E. simplify_eq. destruct (destinations_keys _ _ _ _ _ _ Ed) as [H1 H2].
        split; [done|]. intros; simplify_eq. by apply H2.
      - destruct (anchorFromReference lit0) as [[a|]|]; simpl in E; simplify_eq;
          (split; [done|]); intros; simplify_eq. }
    destruct Hstep as [Hm1 Hs1]. split; [intros k Hk; by apply Hmono, Hm1|].
    intros ds ts d [Heq|Hin]%elem_of_cons Hd Hn.
    + destruct (Hs1 ds ts d (eq_sym Heq) Hd Hn) as [?|?]; [left|right]; by apply Hmono.
    + by apply (Hall ds ts d).
Qed.

(** A key of [raw] keeps its value over nodes that declare no reference
    with that key. *)
Lemma visitAll_raw_keep names key l : forall st st',
  visitAll names l st = Ok st' ->
  (forall rw a, Leaf (ReferenceBlock rw) ∈ l ->
     anchorFromReference rw = Ok (Some a) -> ToLower (elems a) <> key) ->
  st'.2 !! key = st.2 !! key.
Proof.
  induction l as [|n l IH]; intros st st'; simpl.
  - by intros [= <-].
  - destruct (visitCitation names [] n true st) as [[st1 s]|] eqn:E; [|done].
    cbn [mbind result_bind]. intros H Hno.
    rewrite (IH _ _ H) by (intros rw a Hin; apply Hno; by right).
    destruct st as [seen raw]. destruct n as [[ds ts|lit0|t|r|]|k cs];
      simpl in E; try (by simplify_eq).
    + destruct (destinations names ts ds 0 seen); simpl in E; by simplify_eq.
    + destruct (anchorFromReference lit0) as [[a|]|] eqn:Ea; simpl in E; simplify_eq;
        [|done].
      simpl. apply lookup_insert_ne. apply (Hno lit0 a); [by left|done].
Qed.

Lemma visitAll_raw_last names pre rw post a st st' :
  visitAll names (pre ++ Leaf (ReferenceBlock rw) :: post) st = Ok st' ->
  anchorFromReference rw = Ok (Some a) ->
  (forall rw' a', Leaf (ReferenceBlock rw') ∈ post ->
     anchorFromReference rw' = Ok (Some a') ->
     ToLower (elems a') <> ToLower (elems a)) ->
  st'.2 !! ToLower (elems a) = Some rw.
Proof.
  rewrite visitAll_app. destruct (visitAll names pre st) as [[seen1 raw1]|]; [|done].
  cbn [mbind result_bind visitAll visitCitation]. intros H Ha Hno.
  rewrite Ha in H. cbn [mbind result_bind] in H.
  rewrite (visitAll_raw_keep _ _ _ _ _ H Hno). simpl. apply lookup_insert_eq.
Qed.

End OnePass.

(** ** The items of the bibliography *)

Section Items.
Context {L : GoLib}.

Lemma groups_elem seen raw r :
  r ∈ filter isNormative (resolvedItems seen raw)
      ++ filter isInformative (resolvedItems seen raw) ->
  exists k r0, seen !! k = Some r0 /\ r = (resolve raw r0).1.
Proof.
  intros Hr. apply resolvedItems_elem.
  apply elem_of_app in Hr as [Hr|Hr]; by apply list_elem_of_filter in Hr as [_ Hr].
Qed.

Lemma resolve_payload raw r :
  Reference_ r = None -> ReferenceGroup r = None ->
  match raw !! ToLower (anchorOf r) with
  | Some rw => payloadFrom rw (resolve raw r).1
  | None => Reference_ (resolve raw r).1 = None /\ ReferenceGroup (resolve raw r).1 = None
  end.
Proof.
  intros H1 H2. unfold resolve, payloadFrom. fold (anchorOf r).
  destruct (raw !! ToLower (anchorOf r)) as [rw|]; [|done].
  by destruct (xmlUnmarshal (elems rw)).
Qed.

(** X5.  Where the payload of an item comes from.  No item carries both a
    decoded reference and a raw reference group.  An item carries neither
    when no reference block of the document has its anchor up to case.  A
    payload an item carries is the one a reference block of the document
    with its anchor up to case gives: the decoded record when the block
    decodes, the bytes of the block when it does not. *)
Theorem item_payload doc :
  wfDoc doc = true ->
  exists ns is_ lg,
    CitationToBibliography doc
    = Ok (bibliography CitationTypeNormative ns,
          bibliography CitationTypeInformative is_, lg)
    /\ forall r, r ∈ ns ++ is_ ->
         ~ (is_Some (Reference_ r) /\ is_Some (ReferenceGroup r))
         /\ ((forall rw a, Leaf (ReferenceBlock rw) ∈ preorder doc ->
                anchorFromReference rw = Ok (Some a) ->
                ToLower (elems a) <> ToLower (anchorOf r)) ->
             Reference_ r = None /\ ReferenceGroup r = None)
         /\ (is_Some (Reference_ r) \/ is_Some (ReferenceGroup r) ->
             exists rw, declared doc (ToLower (anchorOf r)) rw /\ payloadFrom rw r).
Proof.
  intros Hwf. destruct (CitationToBibliography_total doc Hwf) as (seen & raw & Ec & E).
  destruct (collect_inv doc seen raw Ec) as (names & _ & Hseen & Hraw).
  eexists _, _, _. split; [exact E|].
  intros r (k & r0 & Hk & ->)%groups_elem.
  destruct (Hseen k r0 Hk) as (_ & HR & HG & _).
  pose proof (resolve_payload raw r0 HR HG) as Hp.
  assert (Ha : anchorOf (resolve raw r0).1 = anchorOf r0)
    by (unfold anchorOf; by rewrite resolve_Anchor).
  rewrite Ha. destruct (raw !! ToLower (anchorOf r0)) as [rw|] eqn:Er.
  - pose proof (Hraw _ _ Er) as Hd. split; [|split].
    + unfold payloadFrom in Hp. destruct (xmlUnmarshal (elems rw));
        destruct Hp as [-> ->]; intros [[? ?] [? ?]]; done.
    + intros Hno. destruct Hd as (a & Hin & Ha' & Hkey).
      by destruct (Hno rw a Hin Ha').
    + intros _. by exists rw.
  - destruct Hp as [-> ->]. split; [|split].
    + intros [[? ?] _]; done.
    + done.
    + intros [[? ?]|[? ?]]; done.
Qed.

(** X6.  Of several reference blocks with the same anchor up to case, the
    last one in document order wins: every item with that anchor up to case
    carries the payload of that block, wherever the citation stands. *)
Theorem reference_block_join doc :
  wfDoc doc = true ->
  exists ns is_ lg,
    CitationToBibliography doc
    = Ok (bibliography CitationTypeNormative ns,
          bibliography CitationTypeInformative is_, lg)
    /\ forall pre rw post a,
         preorder doc = pre ++ Leaf (ReferenceBlock rw) :: post ->
         anchorFromReference rw = Ok (Some a) ->
         (forall rw' a', Leaf (ReferenceBlock rw') ∈ post ->
            anchorFromReference rw' = Ok (Some a') ->
            ToLower (elems a') <> ToLower (elems a)) ->
         forall r, r ∈ ns ++ is_ ->
           ToLower (anchorOf r) = ToLower (elems a) -> payloadFrom rw r.
Proof.
  intros Hwf. destruct (CitationToBibliography_total doc Hwf) as (seen & raw & Ec & E).
  destruct (collect_inv doc seen raw Ec) as (names & Hnames & Hseen & _).
  eexists _, _, _. split; [exact E|].
  intros pre rw post a Hpre Ha Hlast r (k & r0 & Hk & ->)%groups_elem Hkey.
  rewrite collect_visitAll, Hnames in Ec. cbn [mbind result_bind] in Ec.
  rewrite Hpre in Ec.
  pose proof (visitAll_raw_last _ _ _ _ _ _ _ Ec Ha Hlast) as Hraw. simpl in Hraw.
  destruct (Hseen k r0 Hk) as (_ & HR & HG & _).
  pose proof (resolve_payload raw r0 HR HG) as Hp.
  assert (Ha' : anchorOf (resolve raw r0).1 = anchorOf r0)
    by (unfold anchorOf; by rewrite resolve_Anchor).
  rewrite Ha' in Hkey. by rewrite Hkey, Hraw in Hp.
Qed.

Lemma NoDup_map_filters {A B} (f : A -> B) (P Q : A -> Prop)
    `{!forall x, Decision (P x)} `{!forall x, Decision (Q x)} (l : list A) :
  (forall x, P x -> Q x -> False) ->
  NoDup (map f l) -> NoDup (map f (filter P l ++ filter Q l)).
Proof.
  intros Hdis Hnd. rewrite map_app. apply NoDup_app. split; [|split].
  - revert Hnd. induction l as [|a l IH]; simpl; [constructor|].
    intros [Ha Hl]%NoDup_cons. rewrite filter_cons.
    destruct (decide (P a)); [|by apply IH]. simpl. apply NoDup_cons. split; [|by apply IH].
    intros Hin. apply Ha. apply list_elem_of_In, in_map_iff in Hin as (x & <- & Hx).
    apply list_elem_of_In, in_map, list_elem_of_In.
    apply list_elem_of_In in Hx. by apply list_elem_of_filter in Hx as [_ Hx].
  - intros y Hy1 Hy2.
    apply list_elem_of_In, in_map_iff in Hy1 as (x1 & <- & Hx1).
    apply list_elem_of_In, in_map_iff in Hy2 as (x2 & Heq & Hx2).
    apply list_elem_of_In, list_elem_of_filter in Hx1 as [HP Hx1].
    apply list_elem_of_In, list_elem_of_filter in Hx2 as [HQ Hx2].
    assert (x1 = x2); [|subst; by apply (Hdis x2)].
    clear -Hnd Heq Hx1 Hx2. induction l as [|a l IH]; [by apply elem_of_nil in Hx1|].
    simpl in Hnd. apply NoDup_cons in Hnd as [Ha Hl].
    apply elem_of_cons in Hx1 as [->|Hx1]; apply elem_of_cons in Hx2 as [->|Hx2].
    + done.
    + exfalso. apply Ha. rewrite <- Heq.
      by apply list_elem_of_In, in_map, list_elem_of_In.
    + exfalso. apply Ha. rewrite Heq.
      by apply list_elem_of_In, in_map, list_elem_of_In.
    + by apply IH.
  - revert Hnd. induction l as [|a l IH]; simpl; [constructor|].
    intros [Ha Hl]%NoDup_cons. rewrite filter_cons.
    destruct (decide (Q a)); [|by apply IH]. simpl. apply NoDup_cons. split; [|by apply IH].
    intros Hin. apply Ha. apply list_elem_of_In, in_map_iff in Hin as (x & <- & Hx).
    apply list_elem_of_In, in_map, list_elem_of_In.
    apply list_elem_of_In in Hx. by apply list_elem_of_filter in Hx as [_ Hx].
Qed.

(** X7.  No two items of the two groups together have the same anchor,
    byte for byte. *)
Theorem anchors_unique doc :
  wfDoc doc = true ->
  exists ns is_ lg,
    CitationToBibliography doc
    = Ok (bibliography CitationTypeNormative ns,
          bibliography CitationTypeInformative is_, lg)
    /\ NoDup (map anchorOf (ns ++ is_)).
Proof.
  intros Hwf. destruct (CitationToBibliography_total doc Hwf) as (seen & raw & Ec & E).
  destruct (collect_inv doc seen raw Ec) as (names & _ & Hseen & _).
  eexists _, _, _. split; [exact E|].
  apply NoDup_map_filters.
  - unfold isNormative, isInformative. intros x -> [?|?]; done.
  - rewrite (resolvedItems_anchors names doc seen raw Hseen).
    rewrite sortStrings_perm. apply NoDup_fst_map_to_list.
Qed.

Lemma existsb_all_false {A} (f : A -> bool) l :
  (forall x, x ∈ l -> f x = false) -> existsb f l = false.
Proof.
  induction l as [|a l IH]; intros H; simpl; [done|].
  rewrite (H a) by (by left). simpl. apply IH. intros x Hx. apply H. by right.
Qed.

(** X8.  No cited anchor is lost.  In a document whose citations all have a
    kind other than [CitationTypeNone], every destination that
    [strings.EqualFold] identifies with no author or contact name of the
    first title node has an item in one of the two groups, under its own
    spelling or under its lower-case spelling. *)
Theorem no_citation_lost doc :
  wfDoc doc = true ->
  (forall ds ts, Leaf (Citation ds ts) ∈ preorder doc -> CitationTypeNone ∉ ts) ->
  exists ns is_ lg,
    CitationToBibliography doc
    = Ok (bibliography CitationTypeNormative ns,
          bibliography CitationTypeInformative is_, lg)
    /\ forall ds ts d,
         Leaf (Citation ds ts) ∈ preorder doc -> d ∈ ds ->
         (forall t td name,
            firstTitle doc = Some t -> TitleData_ t = Some td ->
            name ∈ map Fullname (Authors td) ++ map ContactFullname (Contacts td) ->
            EqualFold name (elems d) = false) ->
         exists r, r ∈ ns ++ is_
                   /\ (anchorOf r = elems d \/ anchorOf r = ToLower (elems d)).
Proof.
  intros Hwf Hkinds.
  destruct (CitationToBibliography_total doc Hwf) as (seen & raw & Ec & E).
  destruct (collect_inv doc seen raw Ec) as (names & Hnames & Hseen & _).
  eexists _, _, _. split; [exact E|].
  intros ds ts d Hin Hd Hname.
  rewrite collect_visitAll, Hnames in Ec. cbn [mbind result_bind] in Ec.
  assert (Hn : existsb (fun name => EqualFold name (elems d)) names = false).
  { apply existsb_all_false. intros name Hnm.
    rewrite WalkFunc_visitTitle in Hnames.
    destruct (firstTitle doc) as [t|] eqn:Et; [|simplify_eq; by apply elem_of_nil in Hnm].
    simpl in Hnames. destruct (TitleData_ t) as [td|] eqn:Etd; [|done].
    simplify_eq. by apply (Hname t td). }
  destruct (visitAll_keys _ _ _ _ Ec) as [_ Hall].
  assert (Hkey : exists k r0, seen !! k = Some r0
                   /\ (k = elems d \/ k = ToLower (elems d))).
  { destruct (Hall ds ts d Hin Hd Hn) as [[r0 H]|[r0 H]]; simpl in H; eauto. }
  destruct Hkey as (k & r0 & Hk & Hkd).
  destruct (Hseen k r0 Hk) as (Ha & _ & _ & _ & (ds' & ts' & i & Hin' & _ & Ht)).
  exists (resolve raw r0).1. split.
  - assert (Hres : (resolve raw r0).1 ∈ resolvedItems seen raw)
      by (apply resolvedItems_elem; eauto).
    assert (HT : Type_ r0 <> CitationTypeNone).
    { intros Hnone. apply (Hkinds ds' ts' Hin'). rewrite <- Hnone.
      apply list_elem_of_In. by apply nth_error_In in Ht. }
    apply elem_of_app. destruct (Type_ r0) eqn:Et; [done| | |].
    + right. apply list_elem_of_filter. split; [|done].
      unfold isInformative. rewrite resolve_Type, Et. by left.
    + right. apply list_elem_of_filter. split; [|done].
      unfold isInformative. rewrite resolve_Type, Et. by right.
    + left. apply list_elem_of_filter. split; [|done].
      unfold isNormative. by rewrite resolve_Type, Et.
  - unfold anchorOf in *. rewrite resolve_Anchor, Ha. done.
Qed.

(** X9.  A document without citation nodes has no bibliography: both
    groups are nil, nothing is logged, and [AddBibliography] returns
    [false] and the tree as it was, with or without back matter and
    whatever reference blocks the document has. *)
Theorem no_citations_no_bibliography doc :
  wfDoc doc = true ->
  (forall ds ts, Leaf (Citation ds ts) ∉ preorder doc) ->
  CitationToBibliography doc = Ok (None, None, [])
  /\ AddBibliography doc = Ok (doc, false, []).
Proof.
  intros Hwf Hno.
  destruct (CitationToBibliography_total doc Hwf) as (seen & raw & Ec & E).
  destruct (collect_inv doc seen raw Ec) as (names & _ & Hseen & _).
  assert (Hempty : seen = ∅).
  { apply map_empty. intros k. destruct (seen !! k) as [r|] eqn:Hk; [|done].
    destruct (Hseen k r Hk) as (_ & _ & _ & _ & (ds & ts & i & Hin & _)).
    by destruct (Hno ds ts). }
  subst seen.
  assert (E' : CitationToBibliography doc = Ok (None, None, [])) by (rewrite E; reflexivity).
  split; [exact E'|].
  destruct (AddBibliography_spec doc _ _ _ E') as [[_ H]|(p & cs & Hp & H)]; rewrite H.
  - reflexivity.
  - cbn [attached]. rewrite app_nil_r, (replaceAt_same p doc _ Hp). reflexivity.
Qed.

(** X10.  The boolean that [AddBibliography] returns tells whether the tree
    changed: it is [true] exactly when the resulting tree differs from the
    given one. *)
Theorem AddBibliography_result doc doc' b lg :
  AddBibliography doc = Ok (doc', b, lg) ->
  b = true <-> doc' <> doc.
Proof.
  intros H.
  destruct (CitationToBibliography doc) as [[[norm inform] lg0]|] eqn:E.
  2:{ unfold AddBibliography, AddBibliographyIn in H. unfold CitationToBibliography in E.
      by rewrite E in H. }
  destruct (AddBibliography_spec doc _ _ _ E) as [[_ H']|(p & cs & Hp & H')];
    rewrite H' in H; simplify_eq.
  - split; [done|]. intros Hd. by destruct Hd.
  - destruct norm as [n|], inform as [i|]; cbn [attached].
    4:{ rewrite app_nil_r, (replaceAt_same p doc _ Hp). split; [done|].
        intros Hd. by destruct Hd. }
    all: split; [intros _ Heq|done].
    all: match type of Heq with replaceAt _ ?new _ = _ =>
           pose proof (nodeAt_replaceAt new p doc _ Hp) as Hn end.
    all: rewrite Heq, Hp in Hn; simplify_eq.
    all: match goal with H : _ = ?l ++ _ |- _ =>
           apply (f_equal (@length Node)) in H; rewrite length_app in H; simpl in H; lia end.
Qed.

End Items.

(** ** A second call of the splicer *)

Section Again.
Context {L : GoLib}.

Lemma visitAll_inert names l st : Forall inert l -> visitAll names l st = Ok st.
Proof.
  induction 1 as [|n l Hn _ IH]; [done|]. simpl.
  replace (visitCitation names [] n true st) with (Ok (st, GoToNext)); [exact IH|].
  destruct st. by destruct n as [[]|].
Qed.

Lemma asTitle_inert l : Forall inert l -> omap asTitle l = [].
Proof.
  induction 1 as [|n l Hn _ IH]; [done|]. cbn [omap list_omap].
  replace (asTitle n) with (@None Title) by (by destruct n as [[]|]). exact IH.
Qed.

Lemma preorder_items items :
  flat_map preorder (map itemNode items) = map itemNode items.
Proof. induction items as [|r items IH]; [done|]. simpl. by rewrite IH. Qed.

Lemma inert_items items : Forall inert (map itemNode items).
Proof. induction items; constructor; done. Qed.

Lemma inert_bibliography typ items n :
  bibliography typ items = Some n -> Forall inert (preorder n).
Proof.
  destruct items as [|r items]; [done|]. intros [= <-].
  change (Forall inert (Container (Bibliography typ) (map itemNode (r :: items))
                        :: flat_map preorder (map itemNode (r :: items)))).
  constructor; [done|].
  rewrite (preorder_items (r :: items)). apply inert_items.
Qed.

Lemma inert_attached ns is_ :
  Forall inert (flat_map preorder
                  (attached (bibliography CitationTypeNormative ns)
                            (bibliography CitationTypeInformative is_))).
Proof.
  destruct (bibliography CitationTypeNormative ns) as [n|] eqn:En;
    destruct (bibliography CitationTypeInformative is_) as [i|] eqn:Ei;
    cbn [attached flat_map]; rewrite ?app_nil_r;
    try apply inert_bibliography in En; try apply inert_bibliography in Ei; try done.
  cbn [preorder flat_map]. rewrite app_nil_r. constructor; [done|].
  by apply Forall_app.
Qed.

(** Appending inert nodes under the node at [p] changes neither walk. *)
Lemma visitAll_replaceAt names k new : forall p doc cs st,
  nodeAt p doc = Some (Container k cs) ->
  Forall inert (flat_map preorder new) ->
  visitAll names (preorder (replaceAt p (Container k (cs ++ new)) doc)) st
  = visitAll names (preorder doc) st.
Proof.
  induction p as [|i p IH]; intros doc cs st; cbn [nodeAt replaceAt].
  - intros [= ->] Hnew. cbn [preorder visitAll].
    rewrite !visitCitation_container. cbn [mbind result_bind].
    rewrite flat_map_app, visitAll_app.
    destruct (visitAll names (flat_map preorder cs) st) as [st1|]; [|done].
    cbn [mbind result_bind]. by apply visitAll_inert.
  - destruct doc as [k0|k0 cs0]; [done|].
    destruct (nth_error cs0 i) as [c|] eqn:Ec; [|done]. intros Hc Hnew.
    destruct (split_at cs0 i c Ec) as [Hs _].
    assert (Hrhs : preorder (Container k0 cs0)
                   = Container k0 cs0
                     :: flat_map preorder (firstn i cs0 ++ c :: skipn (S i) cs0))
      by (by rewrite <- Hs).
    rewrite Hrhs. cbn [preorder visitAll].
    rewrite !visitCitation_container. cbn [mbind result_bind].
    rewrite !flat_map_app, !visitAll_app.
    destruct (visitAll names (flat_map preorder (firstn i cs0)) st) as [st1|];
      cbn [mbind result_bind]; [|done].
    cbn [flat_map]. rewrite !visitAll_app.
    by rewrite (IH c cs st1 Hc Hnew).
Qed.

Lemma asTitle_replaceAt k new : forall p doc cs,
  nodeAt p doc = Some (Container k cs) ->
  Forall inert (flat_map preorder new) ->
  omap asTitle (preorder (replaceAt p (Container k (cs ++ new)) doc))
  = omap asTitle (preorder doc).
Proof.
  induction p as [|i p IH]; intros doc cs; cbn [nodeAt replaceAt].
  - intros [= ->] Hnew. cbn [preorder omap list_omap asTitle].
    rewrite flat_map_app, omap_app, (asTitle_inert _ Hnew). by rewrite app_nil_r.
  - destruct doc as [k0|k0 cs0]; [done|].
    destruct (nth_error cs0 i) as [c|] eqn:Ec; [|done]. intros Hc Hnew.
    destruct (split_at cs0 i c Ec) as [Hs _].
    assert (Hrhs : preorder (Container k0 cs0)
                   = Container k0 cs0
                     :: flat_map preorder (firstn i cs0 ++ c :: skipn (S i) cs0))
      by (by rewrite <- Hs).
    rewrite Hrhs. cbn [preorder omap list_omap asTitle].
    rewrite !flat_map_app, !omap_app. cbn [flat_map]. rewrite !omap_app.
    by rewrite (IH c cs Hc Hnew).
Qed.

Lemma collect_replaceAt k new p doc cs :
  nodeAt p doc = Some (Container k cs) ->
  Forall inert (flat_map preorder new) ->
  collect (replaceAt p (Container k (cs ++ new)) doc) = collect doc.
Proof.
  intros Hp Hnew. rewrite !collect_visitAll, !WalkFunc_visitTitle.
  unfold firstTitle. rewrite (asTitle_replaceAt k new p doc cs Hp Hnew).
  destruct (head (omap asTitle (preorder doc))) as [t|]; cbn [mbind result_bind].
  - destruct (authContFromTitle (Some t)) as [names|]; [|done].
    cbn [mbind result_bind]. by apply visitAll_replaceAt.
  - by apply visitAll_replaceAt.
Qed.

Lemma pathBefore_asym p : forall q, pathBefore p q -> pathBefore q p -> False.
Proof.
  induction p as [|i p IH]; intros [|j q]; simpl; try done.
  intros [H1|[-> H1]] [H2|[H2 H3]]; try lia. by apply (IH q).
Qed.

Lemma pathBefore_irrefl p : ~ pathBefore p p.
Proof. intros H. by apply (pathBefore_asym p p). Qed.

(** A back-matter node before [p] in the tree changed at [p] was one
    before the change. *)
Lemma nodeAt_before_replaceAt new : forall q p doc old c,
  nodeAt p doc = Some old ->
  pathBefore q p ->
  nodeAt q (replaceAt p new doc) = Some c -> isBackMatter c ->
  exists c0, nodeAt q doc = Some c0 /\ isBackMatter c0.
Proof.
  induction q as [|j q IH]; intros p doc old c Hp Hbef Hq Hb.
  - destruct p as [|i p]; [done|]. cbn [nodeAt replaceAt] in *.
    destruct doc as [k0|k0 cs0]; [done|].
    destruct (nth_error cs0 i) as [c1|]; [|done].
    simplify_eq. destruct Hb as [cs' [= -> _]]. eexists. split; [done|]. by eexists.
  - destruct p as [|i p]; [done|]. cbn [pathBefore] in Hbef.
    cbn [nodeAt replaceAt] in Hp, Hq |- *.
    destruct doc as [k0|k0 cs0]; [done|].
    destruct (nth_error cs0 i) as [c1|] eqn:Ec; [|done].
    destruct (split_at cs0 i c1 Ec) as [Hs Hl]. cbn [nodeAt] in Hq.
    destruct Hbef as [Hlt|[-> Hbef]].
    + rewrite nth_error_app1 in Hq by (rewrite Hl; lia).
      rewrite nth_error_firstn in Hq.
      destruct (j <? i)%nat eqn:E; [|lia]. exists c. split; [|done].
      by destruct (nth_error cs0 j).
    + match type of Hq with
      | context [nth_error (?a ++ ?x :: ?b) _] =>
          pose proof (nth_error_middle a b x) as Hm
      end.
      rewrite Hl in Hm. rewrite Hm in Hq.
      rewrite Ec. by apply (IH p c1 old c).
Qed.

Lemma NodeBackMatter_replaceAt new p doc cs :
  NodeBackMatter doc = Ok (Some p) ->
  nodeAt p doc = Some (Container (DocumentMatter DocumentMatterBack) cs) ->
  NodeBackMatter
    (replaceAt p (Container (DocumentMatter DocumentMatterBack) (cs ++ new)) doc)
  = Ok (Some p).
Proof.
  intros Hnb Hp.
  set (doc1 := replaceAt p _ doc).
  assert (Hp1 : nodeAt p doc1 = Some (Container (DocumentMatter DocumentMatterBack) (cs ++ new)))
    by (by apply (nodeAt_replaceAt _ p doc _ Hp)).
  destruct (NodeBackMatter_order doc)
    as [[E _]|(p0 & c0 & E & _ & _ & Hfirst)]; [congruence|].
  assert (p0 = p) by congruence. subst p0.
  destruct (NodeBackMatter_order doc1)
    as [[_ Hno]|(q & c & E1 & Hq & Hb & Hfirst1)].
  { exfalso. apply (Hno p _ Hp1). by eexists. }
  rewrite E1. f_equal. f_equal.
  destruct (Hfirst1 p _ Hp1 ltac:(by eexists)) as [->|Hbef]; [done|].
  destruct (nodeAt_before_replaceAt _ q p doc _ c Hp Hbef Hq Hb) as (c1 & Hq0 & Hb0).
  destruct (Hfirst q c1 Hq0 Hb0) as [->|Hbef']; [done|].
  by destruct (pathBefore_asym _ _ Hbef Hbef').
Qed.

Lemma AddBibliography_at doc norm inform lg p cs :
  CitationToBibliography doc = Ok (norm, inform, lg) ->
  NodeBackMatter doc = Ok (Some p) ->
  nodeAt p doc = Some (Container (DocumentMatter DocumentMatterBack) cs) ->
  AddBibliography doc =
  Ok (replaceAt p (Container (DocumentMatter DocumentMatterBack)
                     (cs ++ attached norm inform)) doc,
      bool_decide (is_Some norm \/ is_Some inform), lg).
Proof.
  intros E Eb Hp. unfold AddBibliography, AddBibliographyIn.
  unfold CitationToBibliography in E. rewrite E. cbn [mbind result_bind].
  rewrite Eb. cbn [mbind result_bind].
  destruct norm as [n|], inform as [i|]; cbn [attached].
  - rewrite (AppendChildAt_container doc p _ cs _ Hp). cbn [mbind result_bind].
    rewrite (AppendChildAt_last doc p _ cs _ [] n Hp). cbn [mbind result_bind app].
    rewrite (AppendChildAt_last doc p _ cs _ [n] i Hp). cbn [mbind result_bind app].
    done.
  - cbn [mbind result_bind].
    rewrite (AppendChildAt_container doc p _ cs _ Hp). cbn [mbind result_bind].
    done.
  - cbn [mbind result_bind].
    rewrite (AppendChildAt_container doc p _ cs _ Hp). cbn [mbind result_bind].
    done.
  - cbn [mbind result_bind]. rewrite app_nil_r.
    rewrite (replaceAt_same p doc _ Hp). done.
Qed.

(** X11.  [AddBibliography] does not look for a bibliography that is
    already there.  After a call that returned [true], a second call on the
    resulting tree returns [true] again, with the same log, and appends the
    same nodes once more to the same back-matter node. *)
Theorem AddBibliography_again doc doc1 lg :
  AddBibliography doc = Ok (doc1, true, lg) ->
  exists p cs new,
    new <> []
    /\ NodeBackMatter doc = Ok (Some p)
    /\ nodeAt p doc = Some (Container (DocumentMatter DocumentMatterBack) cs)
    /\ doc1 = replaceAt p (Container (DocumentMatter DocumentMatterBack) (cs ++ new)) doc
    /\ AddBibliography doc1 =
       Ok (replaceAt p (Container (DocumentMatter DocumentMatterBack)
                          (cs ++ new ++ new)) doc, true, lg).
Proof.
  intros HA.
  pose proof (CitationToBibliography_spec doc) as HC.
  destruct (collect doc) as [[seen raw]|k] eqn:Ecol; cbn [mbind result_bind] in HC.
  2:{ unfold AddBibliography, AddBibliographyIn in HA.
      unfold CitationToBibliography in HC. by rewrite HC in HA. }
  set (ns := filter isNormative (resolvedItems seen raw)) in HC.
  set (is_ := filter isInformative (resolvedItems seen raw)) in HC.
  destruct (NodeBackMatter_order doc)
    as [[Eb _]|(p & c & Eb & Hp & [cs ->] & _)].
  { unfold AddBibliography, AddBibliographyIn in HA.
    unfold CitationToBibliography in HC. rewrite HC in HA.
    cbn [mbind result_bind] in HA. rewrite Eb in HA. by cbn [mbind result_bind] in HA. }
  rewrite (AddBibliography_at doc _ _ _ p cs HC Eb Hp) in HA.
  injection HA as Hdoc Hb Hlg.
  set (new := attached (bibliography CitationTypeNormative ns)
                       (bibliography CitationTypeInformative is_)) in *.
  exists p, cs, new. split; [|split; [done|split; [done|split; [done|]]]].
  { intros Hnil. apply bool_decide_eq_true in Hb.
    unfold new in Hnil.
    destruct (bibliography CitationTypeNormative ns) as [n|],
             (bibliography CitationTypeInformative is_) as [i|];
      cbn [attached] in Hnil; try done.
    by destruct Hb as [[? ?]|[? ?]]. }
  subst doc1.
  set (doc1 := replaceAt p _ doc).
  assert (Hinert : Forall inert (flat_map preorder new)) by apply inert_attached.
  assert (Hp1 : nodeAt p doc1 =
                Some (Container (DocumentMatter DocumentMatterBack) (cs ++ new)))
    by (by apply (nodeAt_replaceAt _ p doc _ Hp)).
  assert (HC1 : CitationToBibliography doc1 =
                Ok (bibliography CitationTypeNormative ns,
                    bibliography CitationTypeInformative is_, resolveLog seen raw)).
  { rewrite CitationToBibliography_spec. unfold doc1.
    rewrite (collect_replaceAt _ new p doc cs Hp Hinert), Ecol. done. }
  rewrite (AddBibliography_at doc1 _ _ _ p (cs ++ new) HC1
             (NodeBackMatter_replaceAt new p doc cs Eb Hp) Hp1).
  fold new. unfold doc1. rewrite (replaceAt_twice _ _ p doc _ Hp).
  rewrite <- app_assoc. by rewrite Hb, Hlg.
Qed.

End Again.

(** ** Title lookups *)

Section TitleLookups.
Context {L : GoLib}.

Lemma firstAuthor_spec full authors :
  (firstAuthor full authors = None
   /\ forall a, a ∈ authors -> EqualFold (Fullname a) full = false)
  \/ (exists a before after,
        firstAuthor full authors = Some a
        /\ authors = before ++ a :: after
        /\ EqualFold (Fullname a) full = true
        /\ forall b, b ∈ before -> EqualFold (Fullname b) full = false).
Proof.
  induction authors as [|a authors IH]; simpl.
  - left. split; [done|]. intros a H. by apply elem_of_nil in H.
  - destruct (EqualFold (Fullname a) full) eqn:E.
    + right. exists a, [], authors. split; [done|]. split; [done|]. split; [done|].
      intros b H. by apply elem_of_nil in H.
    + destruct IH as [[-> Hall]|(a' & before & after & -> & -> & Ha & Hb)].
      * left. split; [done|]. intros b [->|Hb]%elem_of_cons; auto.
      * right. exists a', (a :: before), after. split; [done|]. split; [done|].
        split; [done|]. intros b [->|Hb']%elem_of_cons; auto.
Qed.

Lemma firstContact_spec full contacts :
  (firstContact full contacts = None
   /\ forall c, c ∈ contacts -> EqualFold (ContactFullname c) full = false)
  \/ (exists c before after,
        firstContact full contacts = Some c
        /\ contacts = before ++ c :: after
        /\ EqualFold (ContactFullname c) full = true
        /\ forall b, b ∈ before -> EqualFold (ContactFullname b) full = false).
Proof.
  induction contacts as [|a contacts IH]; simpl.
  - left. split; [done|]. intros a H. by apply elem_of_nil in H.
  - destruct (EqualFold (ContactFullname a) full) eqn:E.
    + right. exists a, [], contacts. split; [done|]. split; [done|]. split; [done|].
      intros b H. by apply elem_of_nil in H.
    + destruct IH as [[-> Hall]|(a' & before & after & -> & -> & Ha & Hb)].
      * left. split; [done|]. intros b [->|Hb]%elem_of_cons; auto.
      * right. exists a', (a :: before), after. split; [done|]. split; [done|].
        split; [done|]. intros b [->|Hb']%elem_of_cons; auto.
Qed.

(** X12.  [AuthorFromTitle].  For a nil title the result is nil.  A title
    without title data makes the call panic.  Otherwise the result is the
    first author, in the order of the title block, whose full name
    [strings.EqualFold] identifies with the given name, and nil when there
    is none. *)
Theorem AuthorFromTitle_spec fullname t :
  match t with
  | None => AuthorFromTitle fullname t = Ok None
  | Some t' =>
      match TitleData_ t' with
      | None => AuthorFromTitle fullname t = Panic NilDereference
      | Some d =>
          (AuthorFromTitle fullname t = Ok None
           /\ forall a, a ∈ Authors d ->
                EqualFold (Fullname a) (elems fullname) = false)
          \/ (exists a before after,
                AuthorFromTitle fullname t = Ok (Some a)
                /\ Authors d = before ++ a :: after
                /\ EqualFold (Fullname a) (elems fullname) = true
                /\ forall b, b ∈ before ->
                     EqualFold (Fullname b) (elems fullname) = false)
      end
  end.
Proof.
  destruct t as [t'|]; [|done]. unfold AuthorFromTitle.
  destruct (TitleData_ t') as [d|]; [|done].
  destruct (firstAuthor_spec (elems fullname) (Authors d))
    as [[-> H]|(a & before & after & -> & H)]; [by left|right; eauto].
Qed.

(** X13.  [ContactFromTitle].  For a nil title the result is nil.  A title
    without title data makes the call panic.  Otherwise the result is the
    first contact, in the order of the title block, whose full name
    [strings.EqualFold] identifies with the given name, and nil when there
    is none. *)
Theorem ContactFromTitle_spec fullname t :
  match t with
  | None => ContactFromTitle fullname t = Ok None
  | Some t' =>
      match TitleData_ t' with
      | None => ContactFromTitle fullname t = Panic NilDereference
      | Some d =>
          (ContactFromTitle fullname t = Ok None
           /\ forall c, c ∈ Contacts d ->
                EqualFold (ContactFullname c) (elems fullname) = false)
          \/ (exists c before after,
                ContactFromTitle fullname t = Ok (Some c)
                /\ Contacts d = before ++ c :: after
                /\ EqualFold (ContactFullname c) (elems fullname) = true
                /\ forall b, b ∈ before ->
                     EqualFold (ContactFullname b) (elems fullname) = false)
      end
  end.
Proof.
  destruct t as [t'|]; [|done]. unfold ContactFromTitle.
  destruct (TitleData_ t') as [d|]; [|done].
  destruct (firstContact_spec (elems fullname) (Contacts d))
    as [[-> H]|(a & before & after & -> & H)]; [by left|right; eauto].
Qed.

(** X14.  A destination that the renderer resolves to a person is no entry
    of the bibliography: when [AuthorFromTitle] or [ContactFromTitle] finds
    someone for the destination in the first title node of the document,
    no item of either group has that destination as its anchor. *)
Theorem person_citation_excluded doc t dst :
  wfDoc doc = true ->
  firstTitle doc = Some t ->
  (exists a, AuthorFromTitle dst (Some t) = Ok (Some a))
  \/ (exists c, ContactFromTitle dst (Some t) = Ok (Some c)) ->
  exists ns is_ lg,
    CitationToBibliography doc
    = Ok (bibliography CitationTypeNormative ns,
          bibliography CitationTypeInformative is_, lg)
    /\ forall r, r ∈ ns ++ is_ -> anchorOf r <> elems dst.
Proof.
  intros Hwf Ht Hfound.
  destruct (CitationToBibliography_total doc Hwf) as (seen & raw & Ec & E).
  destruct (collect_inv doc seen raw Ec) as (names & Hnames & Hseen & _).
  eexists _, _, _. split; [exact E|].
  intros r (k & r0 & Hk & ->)%groups_elem Hanchor.
  destruct (Hseen k r0 Hk) as (Ha & _ & _ & Hno & _).
  unfold anchorOf in *. rewrite resolve_Anchor, Ha in Hanchor. subst k.
  rewrite WalkFunc_visitTitle, Ht in Hnames. simpl in Hnames.
  destruct (TitleData_ t) as [d|] eqn:Ed; [|done]. simplify_eq.
  assert (Hname : exists name,
            name ∈ map Fullname (Authors d) ++ map ContactFullname (Contacts d)
            /\ EqualFold name (elems dst) = true).
  { destruct Hfound as [[a Hf]|[c Hf]]; simpl in Hf; rewrite Ed in Hf; simplify_eq.
    - destruct (firstAuthor_spec (elems dst) (Authors d))
        as [[Hn _]|(a' & before & after & _ & Hl & Heq & _)]; [congruence|].
      exists (Fullname a'). split; [|done]. apply elem_of_app. left.
      apply list_elem_of_In, in_map, list_elem_of_In. rewrite Hl.
      apply elem_of_app. right. by left.
    - destruct (firstContact_spec (elems dst) (Contacts d))
        as [[Hn _]|(c' & before & after & _ & Hl & Heq & _)]; [congruence|].
      exists (ContactFullname c'). split; [|done]. apply elem_of_app. right.
      apply list_elem_of_In, in_map, list_elem_of_In. rewrite Hl.
      apply elem_of_app. right. by left. }
  destruct Hname as (name & Hin & Hfold). by rewrite (Hno name Hin) in Hfold.
Qed.

End TitleLookups.

(** ** Number lists *)

Lemma uint_no_comma d :
  comma ∉ list_ascii_of_string (NilEmpty.string_of_uint d).
Proof.
  induction d; simpl; try apply not_elem_of_nil;
    (apply not_elem_of_cons; split; [discriminate|done]).
Qed.

Lemma Itoa_no_comma z : comma ∉ Itoa z.
Proof.
  unfold Itoa. destruct (Z.to_int z) as [d|d]; simpl.
  - destruct d; try apply uint_no_comma.
    simpl. apply not_elem_of_cons. split; [discriminate|apply not_elem_of_nil].
  - apply not_elem_of_cons. split; [discriminate|].
    destruct d; try apply uint_no_comma.
    simpl. apply not_elem_of_cons. split; [discriminate|apply not_elem_of_nil].
Qed.

Lemma Itoa_nonempty z : Itoa z <> [].
Proof.
  unfold Itoa. destruct z as [|p|p]; simpl; try done.
  by destruct (Pos.to_uint p).
Qed.

Lemma Itoa_inj a b : Itoa a = Itoa b -> a = b.
Proof.
  unfold Itoa. intros H.
  apply (f_equal string_of_list_ascii) in H.
  rewrite !string_of_list_ascii_of_string in H.
  apply (f_equal NilZero.int_of_string) in H.
  assert (Hisi : forall z, NilZero.int_of_string (NilZero.string_of_int (Z.to_int z))
                           = Some (Z.to_int z)).
  { intros z. apply NilZero.isi; destruct z as [|p|p]; simpl; try done;
      intros [= E]; revert E; apply DecimalPos.Unsigned.to_uint_nonnil. }
  rewrite !Hisi in H. injection H as H.
  apply (f_equal Z.of_int) in H. by rewrite !DecimalZ.of_to in H.
Qed.

Lemma Join_cons x rest sep :
  Join (x :: rest) sep =
  x ++ match rest with [] => [] | _ :: _ => sep ++ Join rest sep end.
Proof. destruct rest; simpl; [by rewrite app_nil_r|done]. Qed.

Lemma comma_split x : forall y r1 r2,
  comma ∉ x -> comma ∉ y ->
  (r1 = [] \/ exists t, r1 = comma :: t) ->
  (r2 = [] \/ exists t, r2 = comma :: t) ->
  x ++ r1 = y ++ r2 -> x = y /\ r1 = r2.
Proof.
  induction x as [|c x IH]; intros y r1 r2 Hx Hy H1 H2; simpl.
  - destruct y as [|d y]; simpl; [done|].
    intros ->. destruct H1 as [H1|[t [= -> _]]]; [done|].
    exfalso. apply Hy. by left.
  - destruct y as [|d y]; simpl.
    + intros <-. destruct H2 as [H2|[t [= -> _]]]; [done|].
      exfalso. apply Hx. by left.
    + intros [= -> H]. apply not_elem_of_cons in Hx as [_ Hx].
      apply not_elem_of_cons in Hy as [_ Hy].
      destruct (IH y r1 r2 Hx Hy H1 H2 H) as [-> ->]. done.
Qed.

Lemma Join_inj xs : forall ys,
  Forall (fun x => (comma ∉ x) /\ x <> []) xs ->
  Forall (fun x => (comma ∉ x) /\ x <> []) ys ->
  Join xs (lit ", ") = Join ys (lit ", ") -> xs = ys.
Proof.
  induction xs as [|x xs IH]; intros [|y ys] Hxs Hys.
  - done.
  - rewrite Join_cons. apply Forall_cons in Hys as [[_ Hy] _].
    simpl. intros H. symmetry in H. apply app_eq_nil in H as [? _]. done.
  - rewrite Join_cons. apply Forall_cons in Hxs as [[_ Hx] _].
    simpl. intros H. apply app_eq_nil in H as [? _]. done.
  - rewrite !Join_cons. apply Forall_cons in Hxs as [[Hx _] Hxs].
    apply Forall_cons in Hys as [[Hy _] Hys]. intros H.
    apply comma_split in H as [-> H]; try done.
    + f_equal. destruct xs as [|x' xs], ys as [|y' ys]; try done.
      apply IH; [done|done|]. by injection H.
    + destruct xs; [by left|right; by eexists].
    + destruct ys; [by left|right; by eexists].
Qed.

(** X15.  [IntSliceToString] loses nothing: two lists of numbers that are
    written as the same text are the same list.  In particular only the
    empty list is written as the empty text. *)
Theorem IntSliceToString_inj a b :
  IntSliceToString a = IntSliceToString b -> a = b.
Proof.
  assert (Hjoin : forall a, IntSliceToString a = Join (map Itoa a) (lit ", "))
    by (by intros []).
  assert (Hok : forall a, Forall (fun x => (comma ∉ x) /\ x <> []) (map Itoa a)).
  { intros a'. apply Forall_forall. intros x Hx.
    apply list_elem_of_In, in_map_iff in Hx as (z & <- & _).
    split; [apply Itoa_no_comma|apply Itoa_nonempty]. }
  rewrite !Hjoin. intros H%Join_inj; [|done|done].
  revert b H. induction a as [|x a IH]; intros [|y b]; simpl; try done.
  intros [= Hxy Hab]. f_equal; [by apply Itoa_inj|by apply IH].
Qed.

Example IntSliceToString_ex :
  IntSliceToString [7322; -1; 0] = lit "7322, -1, 0".
Proof. reflexivity. Qed.

(** ** Closed instances of the further properties *)

Section MoreExamples.
#[local] Existing Instance exampleLib.

Lemma IsReference_first_closer_witness :
  let data := ofBytes (lit "<reference anchor='A'>x</reference>tail") in
  closerOf (elems data) (lit "</reference>")
  /\ indexOpt (skipn 12 (elems data)) (lit "</reference>") = Some 11%nat
  /\ exists span tail_,
       IsReference data = Ok (Some span)
       /\ elems span = firstn (12 + 11) (elems data) ++ lit "</reference>"
       /\ elems data = elems span ++ tail_
       /\ spare span = tail_ ++ spare data.
Proof.
  intros data. split; [left; split; reflexivity|]. split; [reflexivity|].
  refine (proj2 (IsReference_first_closer data (lit "</reference>") 11 _ eq_refl) _).
  - left. split; reflexivity.
  - discriminate.
Defined.

Lemma ReferenceHook_contract_witness :
  let data := ofBytes (lit "<reference anchor='A'>x</reference>tail") in
  let span := mkSlice (lit "<reference anchor='A'>x</reference>") (lit "tail") in
  ReferenceHook data = Ok (Some (Leaf (ReferenceBlock span)), None, 35)
  /\ 23 <= 35 <= cap data.
Proof.
  intros data span.
  assert (HR : ReferenceHook data = Ok (Some (Leaf (ReferenceBlock span)), None, 35))
    by reflexivity.
  split; [exact HR|].
  destruct (ReferenceHook_contract data _ _ _ HR)
    as [_ [(_ & H & _)|(sp & _ & _ & _ & _ & _ & H)]]; [discriminate H|exact H].
Defined.

Lemma item_payload_witness :
  wfDoc docFull = true
  /\ exists ns is_ lg,
       CitationToBibliography docFull
       = Ok (bibliography CitationTypeNormative ns,
             bibliography CitationTypeInformative is_, lg)
       /\ forall r, r ∈ ns ++ is_ ->
            ~ (is_Some (Reference_ r) /\ is_Some (ReferenceGroup r)).
Proof.
  split; [reflexivity|].
  destruct (item_payload docFull eq_refl) as (ns & is_ & lg & HB & H).
  exists ns, is_, lg. split; [exact HB|]. intros r Hr. exact (proj1 (H r Hr)).
Defined.

Lemma reference_block_join_witness :
  let last := ofBytes (lit "<reference anchor='A'>x</reference>") in
  wfDoc docTwoBlocks = true
  /\ exists ns is_ lg,
       CitationToBibliography docTwoBlocks
       = Ok (bibliography CitationTypeNormative ns,
             bibliography CitationTypeInformative is_, lg)
       /\ forall r, r ∈ ns ++ is_ -> ToLower (anchorOf r) = lit "a" ->
            Reference_ r = None /\ ReferenceGroup r = Some last.
Proof.
  intros last. split; [reflexivity|].
  assert (HA : exists a, anchorFromReference last = Ok (Some a) /\ elems a = lit "A")
    by (eexists; split; reflexivity).
  destruct HA as (a & HA & Hel).
  destruct (reference_block_join docTwoBlocks eq_refl) as (ns & is_ & lg & HB & H).
  exists ns, is_, lg. split; [exact HB|]. intros r Hr Ha.
  refine (H [docTwoBlocks; Leaf (ReferenceBlock (ofBytes exampleSource));
             cite "a" CitationTypeNormative]
            last [] a eq_refl HA _ r Hr _).
  - intros rw' a' Hin. by apply elem_of_nil in Hin.
  - rewrite Hel. exact Ha.
Defined.

Lemma anchors_unique_witness :
  wfDoc docCase = true
  /\ exists ns is_ lg,
       CitationToBibliography docCase
       = Ok (bibliography CitationTypeNormative ns,
             bibliography CitationTypeInformative is_, lg)
       /\ NoDup (map anchorOf (ns ++ is_)).
Proof. split; [reflexivity|]. exact (anchors_unique docCase eq_refl). Defined.

Lemma no_citation_lost_witness :
  wfDoc docFull = true
  /\ exists ns is_ lg,
       CitationToBibliography docFull
       = Ok (bibliography CitationTypeNormative ns,
             bibliography CitationTypeInformative is_, lg)
       /\ exists r, r ∈ ns ++ is_
            /\ (anchorOf r = lit "RFC2119" \/ anchorOf r = ToLower (lit "RFC2119")).
Proof.
  split; [reflexivity|].
  assert (Hkinds : forall ds ts,
            Leaf (Citation ds ts) ∈ preorder docFull -> CitationTypeNone ∉ ts).
  { intros ds ts Hin Hn.
    repeat (apply elem_of_cons in Hin as [Hin|Hin]; [try discriminate Hin|]).
    - injection Hin as -> ->.
      repeat (apply elem_of_cons in Hn as [Hn|Hn]; [discriminate Hn|]).
      by apply elem_of_nil in Hn.
    - injection Hin as -> ->.
      repeat (apply elem_of_cons in Hn as [Hn|Hn]; [discriminate Hn|]).
      by apply elem_of_nil in Hn.
    - by apply elem_of_nil in Hin. }
  assert (Hnames : forall t td name,
            firstTitle docFull = Some t -> TitleData_ t = Some td ->
            name ∈ map Fullname (Authors td) ++ map ContactFullname (Contacts td) ->
            EqualFold name (lit "RFC2119") = false).
  { intros t td name [= <-] [= <-] Hname.
    apply elem_of_cons in Hname as [->|Hname]; [reflexivity|].
    by apply elem_of_nil in Hname. }
  destruct (no_citation_lost docFull eq_refl Hkinds) as (ns & is_ & lg & HB & H).
  exists ns, is_, lg. split; [exact HB|].
  refine (H [ofBytes (lit "RFC2119"); ofBytes (lit "jane doe")]
            [CitationTypeNormative; CitationTypeInformative]
            (ofBytes (lit "RFC2119")) _ _ Hnames).
  - do 3 right. left.
  - left.
Defined.

Lemma no_citations_no_bibliography_witness :
  wfDoc docPlain = true
  /\ CitationToBibliography docPlain = Ok (None, None, [])
  /\ AddBibliography docPlain = Ok (docPlain, false, []).
Proof.
  split; [reflexivity|]. apply no_citations_no_bibliography; [reflexivity|].
  intros ds ts Hin.
  repeat (apply elem_of_cons in Hin as [Hin|Hin]; [discriminate Hin|]).
  by apply elem_of_nil in Hin.
Defined.

Lemma AddBibliography_result_witness :
  exists doc' lg,
    AddBibliography docFull = Ok (doc', true, lg) /\ doc' <> docFull.
Proof.
  eexists _, _. split; [reflexivity|].
  by apply (AddBibliography_result docFull _ true _ eq_refl).
Defined.

Lemma AddBibliography_again_witness :
  exists doc1 doc2 lg,
    AddBibliography docSuppressed = Ok (doc1, true, lg)
    /\ AddBibliography doc1 = Ok (doc2, true, lg)
    /\ exists cs new,
         new <> []
         /\ nodeAt [1%nat] docSuppressed
            = Some (Container (DocumentMatter DocumentMatterBack) cs)
         /\ doc1 = replaceAt [1%nat]
                     (Container (DocumentMatter DocumentMatterBack) (cs ++ new))
                     docSuppressed
         /\ doc2 = replaceAt [1%nat]
                     (Container (DocumentMatter DocumentMatterBack) (cs ++ new ++ new))
                     docSuppressed.
Proof.
  assert (HA : exists doc1 lg, AddBibliography docSuppressed = Ok (doc1, true, lg))
    by (eexists _, _; reflexivity).
  assert (HB : NodeBackMatter docSuppressed = Ok (Some [1%nat])) by reflexivity.
  destruct HA as (doc1 & lg & HA).
  destruct (AddBibliography_again docSuppressed doc1 lg HA)
    as (p & cs & new & Hnew & Hb & Hp & Hd & H2).
  pose proof (eq_trans (eq_sym Hb) HB) as E. injection E as ->.
  eexists doc1, _, lg. split; [exact HA|]. split; [exact H2|].
  exists cs, new. split; [exact Hnew|]. split; [exact Hp|]. split; [exact Hd|reflexivity].
Defined.

Lemma person_citation_excluded_witness :
  let t := {| TitleData_ :=
                Some {| Authors := [{| Fullname := lit "Jane Doe" |}];
                        Contacts := [] |} |} in
  wfDoc docFull = true
  /\ firstTitle docFull = Some t
  /\ AuthorFromTitle (ofBytes (lit "jane doe")) (Some t)
     = Ok (Some {| Fullname := lit "Jane Doe" |})
  /\ exists ns is_ lg,
       CitationToBibliography docFull
       = Ok (bibliography CitationTypeNormative ns,
             bibliography CitationTypeInformative is_, lg)
       /\ forall r, r ∈ ns ++ is_ -> anchorOf r <> lit "jane doe".
Proof.
  intros t. split; [reflexivity|]. split; [reflexivity|]. split; [reflexivity|].
  apply (person_citation_excluded docFull t (ofBytes (lit "jane doe")) eq_refl eq_refl).
  left. eexists. reflexivity.
Defined.

Example AuthorFromTitle_fold :
  AuthorFromTitle (ofBytes (lit "JANE DOE")) (Some janeTitle)
  = Ok (Some {| Fullname := lit "Jane Doe" |}).
Proof. reflexivity. Qed.

Example ContactFromTitle_no_author :
  ContactFromTitle (ofBytes (lit "Jane Doe")) (Some janeTitle) = Ok None.
Proof. reflexivity. Qed.

Example AuthorFromTitle_nil_data :
  AuthorFromTitle (ofBytes (lit "Jane Doe")) (Some {| TitleData_ := None |})
  = Panic NilDereference.
Proof. reflexivity. Qed.

Lemma IntSliceToString_inj_witness :
  IntSliceToString [7322; -1; 0] = IntSliceToString [7322; 0 - 1; 0]
  /\ [7322; -1; 0] = [7322; 0 - 1; 0].
Proof.
  split; [reflexivity|]. apply IntSliceToString_inj. reflexivity.
Defined.

End MoreExamples.
